(** * Job Search backend: a shallow embedding of [Application/backend.py]

    The development follows the layout of the Python module: text helpers
    (what [str.lower], [in] and the SQL [LIKE] operator compute), the UTF-8
    codec used by the password truncation, the three tables of the database,
    the authentication functions and then one definition per API endpoint.
    Every endpoint is a function from the database to a new database and a
    result; an exception raised by the Python code is a value of [exn]. *)

From Stdlib Require Import ZArith List String Ascii Bool Lia.
Import ListNotations.

Open Scope string_scope.
Open Scope Z_scope.

(** ** Text

    A Python [str] is kept as the bytes of its UTF-8 encoding, one [ascii]
    per byte, which is how SQLite stores it.  On such bytes [startswith],
    [is_in] and equality are the Python tests on the strings.  [lower] folds
    the letters A-Z and nothing else, which is SQLite's [lower()]; Python's
    [str.lower] follows the Unicode case mapping and is a parameter of the
    one function that calls it. *)
Module Text.

Definition lower_char (c : ascii) : ascii :=
  let n := nat_of_ascii c in
  if (Nat.leb 65 n && Nat.leb n 90)%bool then ascii_of_nat (n + 32) else c.

Fixpoint lower (s : string) : string :=
  match s with
  | EmptyString => EmptyString
  | String c s' => String (lower_char c) (lower s')
  end.

(** [startswith p s]: [s.startswith(p)]. *)
Fixpoint startswith (p s : string) : bool :=
  match p, s with
  | EmptyString, _ => true
  | String _ _, EmptyString => false
  | String a p', String b s' => Ascii.eqb a b && startswith p' s'
  end.

(** [is_in sub s]: the Python test [sub in s] on two strings. *)
Fixpoint is_in (sub s : string) : bool :=
  startswith sub s ||
  match s with
  | EmptyString => false
  | String _ s' => is_in sub s'
  end.

(** Truthiness of a string and of an [Optional[str]]. *)
Definition truthy (s : string) : bool :=
  match s with EmptyString => false | _ => true end.

Definition provided (o : option string) : option string :=
  match o with
  | Some s => if truthy s then Some s else None
  | None => None
  end.

(** The value of a byte. *)
Definition code (c : ascii) : Z := Z.of_N (N_of_ascii c).

(** The SQL [LIKE] operator as SQLite evaluates it ([likeFunc] and
    [patternCompare] with the settings of [LIKE]: [%], [_], no escape
    character, case folded below 128).  Pattern and text are read as C
    strings, that is up to their first NUL, one character at a time with
    [sqlite3Utf8Read]; [%] stands for any run of characters, [_] for any one
    character, every other pattern character for itself, up to ASCII case
    when both characters are below 128.  Patterns are taken to be within
    the length SQLite accepts (50 000 bytes). *)

(** [until_nul s]: the bytes of [s] before its first NUL. *)
Fixpoint until_nul (s : string) : string :=
  match s with
  | EmptyString => EmptyString
  | String c s' => if code c =? 0 then EmptyString else String c (until_nul s')
  end.

(** [sqlite3Utf8Read]: the payload bits of a lead byte (the table
    [sqlite3Utf8Trans1]), and the replacement of a result that is no
    character. *)
Definition lead (b : Z) : Z :=
  if b <? 224 then b - 192
  else if b <? 240 then b - 224
  else if b <? 248 then b - 240
  else if b <? 252 then b - 248
  else if b <? 254 then b - 252
  else 0.

Definition continuation (b : Z) : bool := (128 <=? b) && (b <? 192).

Definition settle (c : Z) : Z :=
  if (c <? 128) || ((55296 <=? c) && (c <=? 57343))
     || ((65534 <=? c) && (c <=? 65535))
  then 65533 else c.

Definition flush (pending : option Z) : list Z :=
  match pending with
  | Some c => [settle c]
  | None => []
  end.

(** [read pending s]: the characters [sqlite3Utf8Read] reads off [s] one
    after the other up to the terminating NUL, [pending] being the value a
    lead byte already read has so far. *)
Fixpoint read (pending : option Z) (s : string) : list Z :=
  match s with
  | EmptyString => flush pending
  | String b s' =>
      let n := code b in
      if n =? 0 then flush pending
      else
        match pending with
        | Some c =>
            if continuation n
            then read (Some ((c * 64 + n mod 64) mod 2 ^ 32)) s'
            else
              settle c
              :: (if 192 <=? n then read (Some (lead n)) s'
                  else n :: read None s')
        | None =>
            if 192 <=? n then read (Some (lead n)) s' else n :: read None s'
        end
  end.

Definition chars (s : string) : list Z := read None s.

(** The values of the bytes of a string. *)
Definition codes (x : string) : list Z := map code (list_ascii_of_string x).

(** [sqlite3Tolower] on a character below 128. *)
Definition fold_case (c : Z) : Z :=
  if (65 <=? c) && (c <=? 90) then c + 32 else c.

(** One pattern character against one character of the text. *)
Definition same (p c : Z) : bool :=
  (p =? c) || ((p <? 128) && (c <? 128) && (fold_case p =? fold_case c)).

Definition is_percent (c : Z) : bool := c =? 37.
Definition is_underscore (c : Z) : bool := c =? 95.

Fixpoint like_chars (pat s : list Z) : bool :=
  match pat with
  | [] => match s with [] => true | _ => false end
  | p :: pat' =>
      if is_percent p then
        (fix any_run (t : list Z) : bool :=
           like_chars pat' t ||
           match t with
           | [] => false
           | _ :: t' => any_run t'
           end) s
      else
        match s with
        | [] => false
        | c :: s' => (is_underscore p || same p c) && like_chars pat' s'
        end
  end.

Definition like (pat s : string) : bool := like_chars (chars pat) (chars s).

(** [column.contains(x)] of SQLAlchemy: [column LIKE '%' || x || '%'],
    with no escaping of [x]. *)
Definition contains (column x : string) : bool :=
  like ("%" ++ x ++ "%") column.

(** [column.ilike(pattern)] of SQLAlchemy on SQLite:
    [lower(column) LIKE lower(pattern)]. *)
Definition ilike (column pattern : string) : bool :=
  like (lower pattern) (lower column).

(** A string of ASCII characters other than NUL and the two wildcards. *)
Fixpoint plain (s : string) : bool :=
  match s with
  | EmptyString => true
  | String c s' =>
      let n := code c in
      (0 <? n) && (n <? 128) && negb (is_percent n) && negb (is_underscore n)
      && plain s'
  end.

End Text.

(** ** UTF-8

    A password is a Python [str] whose encoding matters, so it is kept as
    its list of code points; bytes are integers in 0..255. *)
Module Utf8.

(** [encode_char c]: the UTF-8 bytes of one code point.  [None] stands for
    the [UnicodeEncodeError] Python raises on a surrogate (and covers the
    integers that are no code point at all). *)
Definition encode_char (c : Z) : option (list Z) :=
  if c <? 0 then None
  else if c <? 128 then Some [c]
  else if c <? 2048 then Some [192 + c / 64; 128 + c mod 64]
  else if c <? 65536 then
    if (55296 <=? c) && (c <=? 57343) then None
    else Some [224 + c / 4096; 128 + (c / 64) mod 64; 128 + c mod 64]
  else if c <? 1114112 then
    Some [240 + c / 262144; 128 + (c / 4096) mod 64;
          128 + (c / 64) mod 64; 128 + c mod 64]
  else None.

(** [encode s]: [s.encode('utf-8')]. *)
Fixpoint encode (s : list Z) : option (list Z) :=
  match s with
  | [] => Some []
  | c :: s' =>
      match encode_char c, encode s' with
      | Some b, Some bs => Some (b ++ bs)%list
      | _, _ => None
      end
  end.

Definition cont (b : Z) : bool := (128 <=? b) && (b <=? 191).

(** The range allowed for the byte after the lead byte [b0]. *)
Definition second_ok (b0 b1 : Z) : bool :=
  if b0 =? 224 then (160 <=? b1) && (b1 <=? 191)
  else if b0 =? 237 then (128 <=? b1) && (b1 <=? 159)
  else if b0 =? 240 then (144 <=? b1) && (b1 <=? 191)
  else if b0 =? 244 then (128 <=? b1) && (b1 <=? 143)
  else cont b1.

(** [decode_ignore bs]: [bs.decode('utf-8', errors='ignore')].  A
    well-formed sequence at the head yields its code point; otherwise one
    byte is dropped and decoding resumes behind it, which leaves out the
    same bytes as the codec does. *)
Fixpoint decode_ignore (bs : list Z) : list Z :=
  match bs with
  | [] => []
  | b0 :: r0 =>
      if (0 <=? b0) && (b0 <? 128) then b0 :: decode_ignore r0
      else if (194 <=? b0) && (b0 <=? 223) then
        match r0 with
        | b1 :: r1 =>
            if cont b1
            then ((b0 - 192) * 64 + (b1 - 128)) :: decode_ignore r1
            else decode_ignore r0
        | _ => decode_ignore r0
        end
      else if (224 <=? b0) && (b0 <=? 239) then
        match r0 with
        | b1 :: b2 :: r2 =>
            if second_ok b0 b1 && cont b2
            then ((b0 - 224) * 4096 + (b1 - 128) * 64 + (b2 - 128))
                   :: decode_ignore r2
            else decode_ignore r0
        | _ => decode_ignore r0
        end
      else if (240 <=? b0) && (b0 <=? 244) then
        match r0 with
        | b1 :: b2 :: b3 :: r3 =>
            if second_ok b0 b1 && cont b2 && cont b3
            then ((b0 - 240) * 262144 + (b1 - 128) * 4096
                  + (b2 - 128) * 64 + (b3 - 128)) :: decode_ignore r3
            else decode_ignore r0
        | _ => decode_ignore r0
        end
      else decode_ignore r0
  end.

(** The number of bytes [encode_char] gives a code point. *)
Definition width (c : Z) : nat :=
  if c <? 128 then 1%nat else if c <? 2048 then 2%nat
  else if c <? 65536 then 3%nat else 4%nat.

(** [whole_chars n s]: the longest prefix of [s] whose characters fit, each
    one whole, in [n] bytes. *)
Fixpoint whole_chars (n : nat) (s : list Z) : list Z :=
  match s with
  | [] => []
  | c :: s' =>
      if Nat.leb (width c) n
      then c :: whole_chars (n - width c)%nat s'
      else []
  end.

End Utf8.

(** ** Exceptions and results *)

Inductive exn : Type :=
| HTTPException (status_code : Z) (detail : string)
| UnicodeEncodeError
| ValueError
| PasswordValueError
| OverflowError.

Inductive result (A : Type) : Type :=
| Return (a : A)
| Raise (e : exn).

Arguments Return {A} a.
Arguments Raise {A} e.

Definition bind {A B : Type} (m : result A) (k : A -> result B) : result B :=
  match m with
  | Return a => k a
  | Raise e => Raise e
  end.

Notation "x <- m ;; k" := (bind m (fun x => k))
  (at level 61, m at next level, right associativity).

(** ** Models

    Instants ([datetime]) are microseconds since the epoch, the resolution
    of [datetime.utcnow()], and a request is served at one instant; a
    [date] is year, month, day.  Salaries are carried, never computed with,
    and kept as integers. *)

Definition date : Type := Z * Z * Z.

Module User.
Record t : Type := mk {
  id : Z;
  email : string;
  hashed_password : string;
  full_name : string;
  date_of_birth : option date;
  location : string;
  graduation_date : option date;
  graduation_institution : option string;
  transportation_mode : string;
  resume_url : option string;
  created_at : Z
}.
End User.

Module Job.
Record t : Type := mk {
  id : Z;
  title : string;
  company : string;
  location : string;
  salary_min : option Z;
  salary_max : option Z;
  description : string;
  requirements : string;
  job_type : string;
  category : string;
  is_remote : bool;
  posted_date : Z
}.
End Job.

Module JobApplication.
Record t : Type := mk {
  id : Z;
  user_id : Z;
  job_id : Z;
  status : string;
  applied_at : Z
}.
End JobApplication.

(** ** Schemas *)

Module UserCreate.
Record t : Type := mk {
  email : string;
  password : list Z;
  full_name : string;
  date_of_birth : option string;
  location : string;
  graduation_date : option string;
  graduation_institution : string;
  transportation_mode : string
}.
End UserCreate.

Module LoginRequest.
Record t : Type := mk {
  email : string;
  password : list Z
}.
End LoginRequest.

Module JobCreate.
Record t : Type := mk {
  title : string;
  company : string;
  location : string;
  salary_min : option Z;
  salary_max : option Z;
  description : string;
  requirements : string;
  job_type : string;
  category : string;
  is_remote : bool
}.
End JobCreate.

Module ApplicationCreate.
Record t : Type := mk { job_id : Z }.
End ApplicationCreate.

(** ** The database

    One list of rows per table, in insertion order, which is the order in
    which an unordered query returns them.  A new row gets the next integer
    primary key. *)

Record DB : Type := mkDB {
  users : list User.t;
  jobs : list Job.t;
  applications : list JobApplication.t
}.

Definition empty_db : DB := mkDB [] [] [].

Definition next_id {A : Type} (id : A -> Z) (rows : list A) : Z :=
  1 + fold_right Z.max 0 (map id rows).

(** [first], [limit]: the query methods, on the rows a query selects. *)
Definition first {A : Type} (rows : list A) : option A := hd_error rows.
Definition limit {A : Type} (n : nat) (rows : list A) : list A := firstn n rows.

Definition is_empty {A : Type} (l : list A) : bool :=
  match l with [] => true | _ => false end.

(** An integer the SQLite driver binds to a statement: a signed one of 64
    bits.  On any other Python integer it raises [OverflowError]. *)
Definition int64 (n : Z) : bool :=
  (-9223372036854775808 <=? n) && (n <=? 9223372036854775807).

(** [db.add(Job(...)); db.commit()]. *)
Definition add_job (now : Z) (j : JobCreate.t) (db : DB) : DB * Job.t :=
  let row :=
    Job.mk (next_id Job.id (jobs db))
      (JobCreate.title j) (JobCreate.company j) (JobCreate.location j)
      (JobCreate.salary_min j) (JobCreate.salary_max j)
      (JobCreate.description j) (JobCreate.requirements j)
      (JobCreate.job_type j) (JobCreate.category j) (JobCreate.is_remote j)
      now in
  (mkDB (users db) (jobs db ++ [row]) (applications db), row).

(** [db.add_all(rows); db.commit()]. *)
Definition add_all_jobs (now : Z) (rows : list JobCreate.t) (db : DB) : DB :=
  fold_left (fun d j => fst (add_job now j d)) rows db.

(** ** JWT setup *)

Definition ACCESS_TOKEN_EXPIRE_MINUTES : Z := 30.

(** The payload of a signed token carrying a subject, as
    [create_access_token] builds it for [data = {"sub": email}]: [exp] is
    the expiry in whole seconds since the epoch, as [jwt.encode] writes it.
    Signature checking, and tokens this server did not sign, are outside the
    model. *)
Record Token : Type := mkToken {
  sub : string;
  exp : Z
}.

(** ** Email service: the confirmation printed for an application. *)
Record Confirmation : Type := mkConfirmation {
  to_email : string;
  conf_job_title : string;
  conf_company : string
}.

(** ** Password hashing

    [pwd_context] is passlib's bcrypt context.  The bcrypt computation is
    taken as given: [digest] hashes a password under a salt, which [hash]
    draws and is here an argument, and [check] compares a password with a
    stored hash.  Before either, bcrypt refuses a password that holds a NUL
    character, with [PasswordValueError]. *)
Record CryptContext : Type := mkCryptContext {
  digest : Z -> list Z -> string;
  check : list Z -> string -> bool
}.

Definition has_nul (secret : list Z) : bool :=
  existsb (fun c => c =? 0) secret.

(** [pwd_context.hash(secret)]. *)
Definition hash (pwd_context : CryptContext) (salt : Z) (secret : list Z)
    : result string :=
  if has_nul secret then Raise PasswordValueError
  else Return (digest pwd_context salt secret).

(** [pwd_context.verify(secret, hashed)]. *)
Definition verify (pwd_context : CryptContext) (secret : list Z)
    (hashed : string) : result bool :=
  if has_nul secret then Raise PasswordValueError
  else Return (check pwd_context secret hashed).

(** The body of an authentication response: the token and the user row the
    summary is read from. *)
Record AuthResponse : Type := mkAuthResponse {
  access_token : Token;
  token_type : string;
  user : User.t
}.

Section Auth.

Variable pwd_context : CryptContext.

(** [datetime.strptime(s, "%Y-%m-%d").date()], [None] for its
    [ValueError]. *)
Variable strptime : string -> option date.

(** *** Auth functions *)

Definition verify_password (plain_password : list Z)
    (hashed_password : string) : result bool :=
  match Utf8.encode plain_password with
  | None => Raise UnicodeEncodeError
  | Some bytes =>
      let plain_password := Utf8.decode_ignore (firstn 72 bytes) in
      verify pwd_context plain_password hashed_password
  end.

Definition get_password_hash (salt : Z) (password : list Z) : result string :=
  match Utf8.encode password with
  | None => Raise UnicodeEncodeError
  | Some bytes =>
      let password := Utf8.decode_ignore (firstn 72 bytes) in
      hash pwd_context salt password
  end.

(** [timedelta(minutes=m)], in microseconds. *)
Definition minutes (m : Z) : Z := m * 60 * 1000000.

(** [jwt.encode] writes the [datetime] under ["exp"] as its whole seconds
    since the epoch, cutting off the microseconds. *)
Definition create_access_token (data_sub : string) (now : Z) : Token :=
  let expire := now + minutes ACCESS_TOKEN_EXPIRE_MINUTES in
  mkToken data_sub (expire / 1000000).

(** [jwt.decode] (PyJWT 2.6 and later) raises [ExpiredSignatureError] from
    the second [exp] on, and gives the payload before. *)
Definition get_current_user_email (credentials : Token) (now : Z)
    : result string :=
  if exp credentials * 1000000 <=? now
  then Raise (HTTPException 401 "Token has expired")
  else Return (sub credentials).

Definition get_current_user (credentials : Token) (now : Z) (db : DB)
    : result User.t :=
  email <- get_current_user_email credentials now ;;
  match first (filter (fun u => String.eqb (User.email u) email) (users db)) with
  | None => Raise (HTTPException 404 "User not found")
  | Some user => Return user
  end.

(** *** POST /auth/signup *)

Definition parse_date (field : option string) : result (option date) :=
  match Text.provided field with
  | None => Return None
  | Some s =>
      match strptime s with
      | Some d => Return (Some d)
      | None => Raise ValueError
      end
  end.

Definition signup (form : UserCreate.t) (resume : bool) (salt now : Z)
    (db : DB) : DB * result AuthResponse :=
  let email := UserCreate.email form in
  match first (filter (fun u => String.eqb (User.email u) email) (users db)) with
  | Some _ => (db, Raise (HTTPException 400 "Email already registered"))
  | None =>
      match get_password_hash salt (UserCreate.password form) with
      | Raise e => (db, Raise e)
      | Return hashed_password =>
      match parse_date (UserCreate.date_of_birth form) with
      | Raise e => (db, Raise e)
      | Return dob =>
      match parse_date (UserCreate.graduation_date form) with
      | Raise e => (db, Raise e)
      | Return grad_date =>
          let db_user :=
            User.mk (next_id User.id (users db)) email hashed_password
              (UserCreate.full_name form) dob (UserCreate.location form)
              grad_date (Some (UserCreate.graduation_institution form))
              (UserCreate.transportation_mode form)
              (if resume
               then Some ("/resumes/" ++ email ++ "_resume.pdf")
               else None)
              now in
          (mkDB (users db ++ [db_user]) (jobs db) (applications db),
           Return (mkAuthResponse (create_access_token email now)
                     "bearer" db_user))
      end end end
  end.

(** *** POST /auth/login *)

Definition login (request : LoginRequest.t) (now : Z) (db : DB)
    : result AuthResponse :=
  let email := LoginRequest.email request in
  match first (filter (fun u => String.eqb (User.email u) email) (users db)) with
  | None => Raise (HTTPException 400 "Invalid credentials")
  | Some user =>
      ok <- verify_password (LoginRequest.password request)
              (User.hashed_password user) ;;
      if negb ok
      then Raise (HTTPException 400 "Invalid credentials")
      else Return (mkAuthResponse (create_access_token (User.email user) now)
                     "bearer" user)
  end.

End Auth.

(** ** GET /jobs/ *)

Definition sample (title company location : string) (salary_min salary_max : Z)
    (description requirements job_type category : string) (is_remote : bool)
    : JobCreate.t :=
  JobCreate.mk title company location (Some salary_min) (Some salary_max)
    description requirements job_type category is_remote.

(** The sample postings [get_jobs] inserts, in the order of the source. *)
Definition sample_jobs : list JobCreate.t :=
  [
  sample "Flutter Developer" "Tech Corp" "New York, NY" 80000 120000
    "We are looking for a skilled Flutter developer to build cross-platform mobile applications."
    "3+ years experience, Dart knowledge, Flutter framework"
    "Full-time" "IT" true;
  sample "Data Analyst" "Data Insights" "San Francisco, CA" 70000 110000
    "Analyze business data and provide insights for decision making."
    "SQL, Python, Statistics knowledge"
    "Contract" "IT" false;
  sample "Senior Python Developer" "CodeCraft Inc" "Austin, TX" 95000 140000
    "Develop scalable backend systems using Python and Django."
    "5+ years Python, Django, REST APIs"
    "Full-time" "IT" true;
  sample "Product Manager" "Innovation Labs" "Seattle, WA" 100000 150000
    "Define product roadmap and work with engineering teams."
    "7+ years product management experience"
    "Full-time" "IT" false;
  sample "UX Designer" "Design Studio" "Los Angeles, CA" 70000 95000
    "Create beautiful and intuitive user interfaces."
    "Portfolio, Figma, UI/UX principles"
    "Full-time" "IT" true;
  sample "DevOps Engineer" "Cloud Solutions" "Remote" 90000 130000
    "Manage cloud infrastructure and CI/CD pipelines."
    "AWS/Azure, Docker, Kubernetes, Terraform"
    "Full-time" "IT" true;
  sample "React Developer" "WebDev Co" "Denver, CO" 85000 115000
    "Build modern web applications using React and TypeScript."
    "React, JavaScript/TypeScript, Redux"
    "Full-time" "IT" true;
  sample "Mobile App Tester" "QA Masters" "Remote" 50000 70000
    "Test mobile applications across different devices."
    "Testing experience, attention to detail"
    "Contract" "IT" true;
  sample "Data Scientist" "AI Innovations" "San Francisco, CA" 110000 160000
    "Build machine learning models and analyze complex datasets."
    "Python, ML frameworks, Statistics PhD preferred"
    "Full-time" "IT" false;
  sample "Backend Engineer" "StartupXYZ" "New York, NY" 95000 135000
    "Design and implement scalable backend services."
    "Node.js or Python, databases, microservices"
    "Full-time" "IT" false;
  sample "Java Developer" "Enterprise Solutions" "Atlanta, GA" 90000 125000
    "Develop enterprise applications using Java and Spring."
    "Java, Spring Boot, microservices architecture"
    "Full-time" "IT" false;
  sample "iOS Developer" "Mobile First" "San Jose, CA" 95000 135000
    "Build native iOS applications using Swift."
    "Swift, iOS SDK, UIKit, SwiftUI"
    "Full-time" "IT" false;
  sample "Full Stack Developer" "Tech Startup" "Remote" 85000 120000
    "Build end-to-end web applications."
    "React, Node.js, MongoDB, REST APIs"
    "Full-time" "IT" true;
  sample "AI/ML Engineer" "Deep Learning Co" "Boston, MA" 120000 170000
    "Develop and deploy machine learning models."
    "TensorFlow, PyTorch, Deep Learning, Python"
    "Full-time" "IT" false;
  sample "Cybersecurity Analyst" "SecureNet" "Remote" 85000 115000
    "Monitor and protect systems from security threats."
    "Security certifications, penetration testing"
    "Full-time" "IT" true;
  sample "Database Administrator" "DataSafe Inc" "Chicago, IL" 75000 105000
    "Manage and optimize database systems."
    "SQL Server, PostgreSQL, performance tuning"
    "Full-time" "IT" false;
  sample "Cloud Architect" "CloudTech" "Remote" 130000 180000
    "Design cloud infrastructure and migration strategies."
    "AWS/Azure/GCP certified, 7+ years experience"
    "Full-time" "IT" true;
  sample "Software Tester" "QA Solutions" "Austin, TX" 55000 80000
    "Perform automated and manual testing."
    "Selenium, test automation, Agile methodology"
    "Full-time" "IT" false;
  sample "Technical Writer" "DocTech" "Remote" 60000 85000
    "Create technical documentation and user guides."
    "Technical writing, API documentation"
    "Full-time" "IT" true;
  sample "Network Engineer" "NetWorks LLC" "Houston, TX" 70000 100000
    "Design and maintain network infrastructure."
    "Cisco, networking protocols, troubleshooting"
    "Full-time" "IT" false;
  sample "Marketing Manager" "Marketing Pro" "Remote" 60000 90000
    "Lead our marketing team and develop strategies to grow our brand."
    "5+ years experience in digital marketing"
    "Full-time" "Marketing" true;
  sample "Sales Representative" "SalesPro Corp" "Chicago, IL" 50000 75000
    "Drive sales and build relationships with clients."
    "2+ years sales experience, excellent communication"
    "Full-time" "Marketing" false;
  sample "Content Writer" "MediaWorks" "Remote" 45000 65000
    "Create engaging content for various platforms."
    "Strong writing skills, SEO knowledge"
    "Part-time" "Marketing" true;
  sample "Graphic Designer" "Creative Agency" "Miami, FL" 55000 80000
    "Design visual content for marketing campaigns."
    "Adobe Creative Suite, portfolio required"
    "Full-time" "Marketing" false;
  sample "SEO Specialist" "Digital Growth" "Remote" 55000 80000
    "Optimize websites for search engines and drive organic traffic."
    "SEO tools, Google Analytics, content strategy"
    "Full-time" "Marketing" true;
  sample "Social Media Manager" "Brand Builders" "Remote" 50000 75000
    "Manage social media accounts and create engaging content."
    "Social media experience, content creation skills"
    "Full-time" "Marketing" true;
  sample "Digital Marketing Specialist" "AdTech Solutions" "Los Angeles, CA" 60000 85000
    "Plan and execute digital marketing campaigns."
    "Google Ads, Facebook Ads, analytics"
    "Full-time" "Marketing" false;
  sample "Brand Manager" "Consumer Goods Co" "New York, NY" 80000 110000
    "Develop and maintain brand identity."
    "Brand strategy, market research, 5+ years"
    "Full-time" "Marketing" false;
  sample "Email Marketing Specialist" "EmailPro" "Remote" 50000 70000
    "Create and manage email marketing campaigns."
    "Mailchimp, A/B testing, copywriting"
    "Full-time" "Marketing" true;
  sample "Public Relations Manager" "PR Experts" "Washington DC" 70000 95000
    "Manage media relations and company reputation."
    "PR experience, media contacts, crisis management"
    "Full-time" "Marketing" false;
  sample "Video Editor" "Media Production" "Remote" 55000 80000
    "Edit video content for various platforms."
    "Adobe Premiere, Final Cut Pro, creativity"
    "Contract" "Marketing" true;
  sample "Copywriter" "Ad Agency" "Chicago, IL" 55000 75000
    "Write compelling copy for advertisements."
    "Creative writing, advertising experience"
    "Full-time" "Marketing" false;
  sample "Marketing Analyst" "Analytics Co" "Remote" 65000 90000
    "Analyze marketing data and campaign performance."
    "Data analysis, Excel, marketing metrics"
    "Full-time" "Marketing" true;
  sample "Event Coordinator" "Events Plus" "Las Vegas, NV" 45000 65000
    "Plan and execute corporate events."
    "Event planning, organization skills"
    "Full-time" "Marketing" false;
  sample "Influencer Marketing Manager" "Social Reach" "Remote" 70000 95000
    "Manage influencer partnerships and campaigns."
    "Influencer marketing, negotiation skills"
    "Full-time" "Marketing" true;
  sample "Mechanical Engineer" "AutoTech Inc" "Detroit, MI" 75000 105000
    "Design mechanical systems for automotive products."
    "CAD, SolidWorks, 3+ years experience"
    "Full-time" "Other" false;
  sample "Electrical Engineer" "PowerGrid Solutions" "Houston, TX" 80000 110000
    "Design electrical systems and circuits."
    "Circuit design, MATLAB, power systems"
    "Full-time" "Other" false;
  sample "Civil Engineer" "Construction Pros" "Phoenix, AZ" 70000 95000
    "Design infrastructure and construction projects."
    "AutoCAD, structural analysis, PE license"
    "Full-time" "Other" false;
  sample "Chemical Engineer" "ChemTech Industries" "Newark, NJ" 85000 115000
    "Develop chemical processes and products."
    "Process engineering, ChemCAD, safety protocols"
    "Full-time" "Other" false;
  sample "Biomedical Engineer" "MedDevice Corp" "Boston, MA" 80000 110000
    "Design medical devices and equipment."
    "Medical devices, FDA regulations, CAD"
    "Full-time" "Other" false;
  sample "Aerospace Engineer" "AeroSpace Systems" "Seattle, WA" 95000 135000
    "Design aircraft and spacecraft systems."
    "Aerodynamics, CATIA, systems engineering"
    "Full-time" "Other" false;
  sample "Industrial Engineer" "Manufacturing Co" "Cleveland, OH" 70000 95000
    "Optimize production processes and efficiency."
    "Lean manufacturing, Six Sigma, process improvement"
    "Full-time" "Other" false;
  sample "Quality Engineer" "QualityFirst" "San Diego, CA" 75000 100000
    "Ensure product quality and compliance."
    "Quality management, ISO standards, inspection"
    "Full-time" "Other" false;
  sample "Process Engineer" "Tech Manufacturing" "Austin, TX" 80000 110000
    "Improve manufacturing processes."
    "Process optimization, lean principles, data analysis"
    "Full-time" "Other" false;
  sample "Environmental Engineer" "EcoSolutions" "Portland, OR" 70000 95000
    "Develop solutions for environmental issues."
    "Environmental science, regulations, water treatment"
    "Full-time" "Other" false;
  sample "Structural Engineer" "BuildRight" "Miami, FL" 85000 115000
    "Design structural systems for buildings."
    "Structural analysis, steel/concrete design, PE license"
    "Full-time" "Other" false;
  sample "Systems Engineer" "Defense Systems" "Arlington, VA" 95000 130000
    "Design complex system architectures."
    "Systems engineering, requirements analysis, DoD clearance"
    "Full-time" "Other" false;
  sample "Manufacturing Engineer" "Auto Parts Inc" "Detroit, MI" 75000 100000
    "Design and improve manufacturing processes."
    "Manufacturing systems, automation, CAD"
    "Full-time" "Other" false;
  sample "Petroleum Engineer" "Energy Corp" "Dallas, TX" 90000 130000
    "Design oil and gas extraction systems."
    "Reservoir engineering, drilling operations"
    "Full-time" "Other" false;
  sample "Materials Engineer" "Advanced Materials" "Pittsburgh, PA" 80000 110000
    "Research and develop new materials."
    "Materials science, testing, R&D experience"
    "Full-time" "Other" false;
  sample "Financial Analyst" "FinTech Solutions" "Boston, MA" 75000 105000
    "Analyze financial data and create reports."
    "Finance degree, Excel, financial modeling"
    "Full-time" "Finance" false;
  sample "Accountant" "Accounting Firm" "New York, NY" 60000 85000
    "Manage financial records and prepare reports."
    "CPA, accounting software, 3+ years"
    "Full-time" "Finance" false;
  sample "Investment Banker" "Goldman & Associates" "New York, NY" 120000 200000
    "Provide financial advisory services."
    "Finance degree, MBA preferred, deal experience"
    "Full-time" "Finance" false;
  sample "Tax Advisor" "Tax Experts" "Chicago, IL" 70000 95000
    "Provide tax planning and compliance services."
    "CPA, tax law, client management"
    "Full-time" "Finance" false;
  sample "Auditor" "Audit Solutions" "Atlanta, GA" 65000 90000
    "Conduct financial audits and reviews."
    "CPA, auditing standards, analytical skills"
    "Full-time" "Finance" false;
  sample "Business Analyst" "Consulting Group" "Washington DC" 75000 100000
    "Analyze business processes and recommend improvements."
    "Business analysis, requirements gathering, Agile"
    "Full-time" "Other" false;
  sample "Management Consultant" "Strategy Consultants" "San Francisco, CA" 100000 150000
    "Advise businesses on strategy and operations."
    "MBA, consulting experience, problem-solving"
    "Full-time" "Other" false;
  sample "Operations Manager" "Logistics Co" "Memphis, TN" 70000 95000
    "Oversee daily operations and logistics."
    "Operations management, process improvement"
    "Full-time" "Other" false;
  sample "Risk Analyst" "Insurance Corp" "Hartford, CT" 70000 95000
    "Assess and manage business risks."
    "Risk analysis, statistics, financial modeling"
    "Full-time" "Finance" false;
  sample "Portfolio Manager" "Investment Firm" "New York, NY" 110000 160000
    "Manage investment portfolios."
    "CFA, portfolio management, market analysis"
    "Full-time" "Finance" false;
  sample "Financial Controller" "Manufacturing Corp" "Cleveland, OH" 90000 125000
    "Oversee financial reporting and controls."
    "CPA, controller experience, leadership"
    "Full-time" "Finance" false;
  sample "Budget Analyst" "Government Agency" "Washington DC" 65000 85000
    "Analyze and prepare budget reports."
    "Budget analysis, Excel, government experience"
    "Full-time" "Finance" false;
  sample "Credit Analyst" "Banking Corp" "Charlotte, NC" 60000 80000
    "Evaluate creditworthiness of loan applicants."
    "Credit analysis, financial statements, banking"
    "Full-time" "Finance" false;
  sample "Supply Chain Manager" "Retail Giant" "Bentonville, AR" 85000 115000
    "Manage supply chain operations."
    "Supply chain management, logistics, ERP systems"
    "Full-time" "Other" false;
  sample "Compliance Officer" "Financial Services" "New York, NY" 80000 110000
    "Ensure regulatory compliance."
    "Compliance knowledge, regulations, auditing"
    "Full-time" "Finance" false;
  sample "Registered Nurse" "City Hospital" "Los Angeles, CA" 70000 95000
    "Provide patient care and support."
    "RN license, BSN, clinical experience"
    "Full-time" "Other" false;
  sample "Pharmacist" "Pharmacy Chain" "Phoenix, AZ" 110000 140000
    "Dispense medications and provide consultation."
    "PharmD, state license, patient care"
    "Full-time" "Other" false;
  sample "Medical Laboratory Technician" "LabCorp" "Burlington, NC" 45000 60000
    "Conduct laboratory tests and analysis."
    "MLT certification, lab experience"
    "Full-time" "Other" false;
  sample "Physical Therapist" "Rehab Center" "Denver, CO" 75000 95000
    "Provide physical therapy services."
    "DPT, state license, patient care"
    "Full-time" "Other" false;
  sample "Research Scientist" "Biotech Labs" "San Diego, CA" 85000 120000
    "Conduct scientific research and experiments."
    "PhD in life sciences, research experience"
    "Full-time" "Other" false;
  sample "Clinical Research Coordinator" "Pharma Inc" "Boston, MA" 55000 75000
    "Coordinate clinical trials and research."
    "Clinical research, GCP, regulatory knowledge"
    "Full-time" "Other" false;
  sample "Medical Writer" "HealthComm" "Remote" 70000 95000
    "Write medical and scientific content."
    "Life sciences degree, medical writing"
    "Full-time" "Other" true;
  sample "Radiologic Technologist" "Imaging Center" "Houston, TX" 55000 75000
    "Perform diagnostic imaging procedures."
    "ARRT certification, radiology experience"
    "Full-time" "Other" false;
  sample "Bioinformatics Specialist" "Genomics Lab" "San Francisco, CA" 90000 125000
    "Analyze biological data using computational methods."
    "Bioinformatics, Python/R, genomics"
    "Full-time" "Other" false;
  sample "Occupational Therapist" "Healthcare Services" "Seattle, WA" 70000 90000
    "Help patients develop daily living skills."
    "OT license, patient assessment"
    "Full-time" "Other" false;
  sample "Software Training Instructor" "Tech Academy" "Remote" 55000 80000
    "Teach programming courses online."
    "Software development, teaching experience"
    "Full-time" "Other" true;
  sample "HR Manager" "PeopleFirst Inc" "Dallas, TX" 70000 95000
    "Manage recruitment and employee relations."
    "HR experience, SHRM certification"
    "Full-time" "Other" false;
  sample "Project Manager" "Construction Plus" "Phoenix, AZ" 80000 110000
    "Manage construction projects from start to finish."
    "PMP certification, 5+ years experience"
    "Full-time" "Other" false;
  sample "Customer Success Manager" "SaaS Company" "Remote" 65000 90000
    "Ensure customer satisfaction and drive product adoption."
    "3+ years customer success experience"
    "Full-time" "Other" true;
  sample "Legal Assistant" "Law Firm" "New York, NY" 50000 70000
    "Support attorneys with legal research and documentation."
    "Paralegal certificate, legal research"
    "Full-time" "Other" false;
  sample "Executive Assistant" "Corporate HQ" "San Francisco, CA" 60000 85000
    "Provide administrative support to executives."
    "Executive support, organization, communication"
    "Full-time" "Other" false;
  sample "Translator" "Language Services" "Remote" 45000 65000
    "Translate documents and communications."
    "Bilingual, translation certification"
    "Contract" "Other" true;
  sample "Urban Planner" "City Planning Dept" "Portland, OR" 65000 90000
    "Plan land use and community development."
    "Urban planning degree, GIS, zoning knowledge"
    "Full-time" "Other" false;
  sample "Real Estate Agent" "Realty Group" "Miami, FL" 50000 100000
    "Help clients buy and sell properties."
    "Real estate license, sales experience"
    "Commission" "Other" false;
  sample "Interior Designer" "Design Interiors" "New York, NY" 55000 85000
    "Design interior spaces for residential and commercial clients."
    "Design degree, CAD, portfolio"
    "Full-time" "Other" false
  ].

Definition get_jobs (title location category : option string) (now : Z)
    (db : DB) : DB * list Job.t :=
  let query := jobs db in
  let query :=
    match Text.provided title with
    | Some title => filter (fun j => Text.contains (Job.title j) title) query
    | None => query
    end in
  let query :=
    match Text.provided location with
    | Some location =>
        filter (fun j => Text.contains (Job.location j) location) query
    | None => query
    end in
  let query :=
    match Text.provided category with
    | Some category =>
        if negb (String.eqb category "Any")
        then filter (fun j => String.eqb (Job.category j) category) query
        else query
    | None => query
    end in
  let found := query in
  if is_empty found then
    let db := add_all_jobs now sample_jobs db in
    (db, jobs db)
  else (db, found).

(** ** GET /jobs/recommended *)

Definition major_keywords : list (string * list string) :=
  [ ("computer science",
     ["developer"; "software"; "programmer"; "engineer"; "it"; "tech";
      "data"; "web"]);
    ("information technology",
     ["it"; "developer"; "software"; "tech"; "system"; "network"]);
    ("software engineering",
     ["software"; "developer"; "engineer"; "programmer"; "tech"]);
    ("computer engineering",
     ["engineer"; "software"; "hardware"; "developer"; "tech"]);
    ("data science",
     ["data"; "analyst"; "scientist"; "analytics"; "bi"; "machine learning"]);
    ("artificial intelligence",
     ["ai"; "machine learning"; "data"; "scientist"; "ml"]);
    ("cybersecurity", ["security"; "cybersecurity"; "analyst"; "engineer"]);
    ("business administration",
     ["manager"; "business"; "admin"; "operations"; "consultant"]);
    ("management",
     ["manager"; "director"; "operations"; "project"; "business"]);
    ("marketing", ["marketing"; "digital"; "social media"; "brand"; "content"]);
    ("finance", ["financial"; "analyst"; "accountant"; "finance"; "banking"]);
    ("accounting", ["accountant"; "finance"; "auditor"; "tax"]);
    ("economics", ["economist"; "analyst"; "financial"; "research"]);
    ("mechanical engineering",
     ["mechanical"; "engineer"; "manufacturing"; "design"]);
    ("electrical engineering",
     ["electrical"; "engineer"; "electronics"; "power"]);
    ("civil engineering",
     ["civil"; "engineer"; "construction"; "infrastructure"]);
    ("chemical engineering",
     ["chemical"; "engineer"; "process"; "manufacturing"]);
    ("nursing", ["nurse"; "healthcare"; "medical"; "clinical"]);
    ("medicine", ["doctor"; "physician"; "medical"; "clinical"; "healthcare"]);
    ("pharmacy", ["pharmacist"; "pharmaceutical"; "clinical"]) ].

Section Recommended.

(** [str.lower] of Python, taken as given. *)
Variable str_lower : string -> string.

Definition user_major_of (current_user : User.t) : string :=
  match User.graduation_institution current_user with
  | Some s => if Text.truthy s then str_lower s else ""
  | None => ""
  end.

End Recommended.

(** The loop over the table: the first major found in [user_major] sets
    [keywords] and breaks. *)
Fixpoint keywords_for (table : list (string * list string))
    (user_major : string) : list string :=
  match table with
  | [] => []
  | (major, related_keywords) :: rest =>
      if Text.is_in major user_major then related_keywords
      else keywords_for rest user_major
  end.

(** The loop building [filters]: two [ilike] tests per keyword. *)
Definition keyword_filters (keywords : list string) : list (Job.t -> bool) :=
  flat_map
    (fun keyword =>
       [ (fun j => Text.ilike (Job.title j) ("%" ++ keyword ++ "%"));
         (fun j => Text.ilike (Job.category j) ("%" ++ keyword ++ "%")) ])
    keywords.

Definition or_ (filters : list (Job.t -> bool)) (j : Job.t) : bool :=
  existsb (fun f => f j) filters.

Definition get_recommended_jobs (str_lower : string -> string)
    (current_user : User.t) (db : DB) : list Job.t :=
  let user_major := user_major_of str_lower current_user in
  let keywords := keywords_for major_keywords user_major in
  if is_empty keywords then limit 10 (jobs db)
  else
    let filters := keyword_filters keywords in
    let found := limit 20 (filter (or_ filters) (jobs db)) in
    if is_empty found then limit 10 (jobs db) else found.

(** ** POST /jobs/ *)

Definition create_job (job : JobCreate.t) (now : Z) (db : DB) : DB * Job.t :=
  add_job now job db.

(** ** POST /applications/ *)

Record ApplicationResponse : Type := mkApplicationResponse {
  message : string;
  application_id : Z
}.

Definition create_application (application : ApplicationCreate.t)
    (current_user : User.t) (now : Z) (db : DB)
    : DB * result (ApplicationResponse * Confirmation) :=
  let job_id := ApplicationCreate.job_id application in
  (* the first query binds [job_id] *)
  if negb (int64 job_id) then (db, Raise OverflowError) else
  let existing :=
    first (filter
             (fun a => (JobApplication.user_id a =? User.id current_user)
                       && (JobApplication.job_id a =? job_id))
             (applications db)) in
  match existing with
  | Some _ => (db, Raise (HTTPException 400 "Already applied"))
  | None =>
      match first (filter (fun j => Job.id j =? job_id) (jobs db)) with
      | None => (db, Raise (HTTPException 404 "Job not found"))
      | Some job =>
          let db_application :=
            JobApplication.mk (next_id JobApplication.id (applications db))
              (User.id current_user) job_id "pending" now in
          (mkDB (users db) (jobs db) (applications db ++ [db_application]),
           Return
             (mkApplicationResponse "Application submitted successfully"
                (JobApplication.id db_application),
              mkConfirmation (User.email current_user) (Job.title job)
                (Job.company job)))
      end
  end.

(** ** GET /applications/ *)

Record ApplicationSummary : Type := mkApplicationSummary {
  summary_id : Z;
  job_title : string;
  summary_company : string;
  summary_applied_at : Z;
  summary_status : string
}.

Definition get_applications (current_user : User.t) (db : DB)
    : list ApplicationSummary :=
  flat_map
    (fun app =>
       match first (filter (fun j => Job.id j =? JobApplication.job_id app)
                      (jobs db)) with
       | Some job =>
           [ mkApplicationSummary (JobApplication.id app) (Job.title job)
               (Job.company job) (JobApplication.applied_at app)
               (JobApplication.status app) ]
       | None => []
       end)
    (filter (fun a => JobApplication.user_id a =? User.id current_user)
       (applications db)).

(** ** The server

    The handlers are coroutines that never await, so one request is served
    to its end before the next: a run of the server is a sequence of
    requests, each turning the database into the next one. *)

Inductive Request : Type :=
| Signup (form : UserCreate.t) (resume : bool) (salt : Z)
| Login (request : LoginRequest.t)
| GetJobs (title location category : option string)
| GetRecommendedJobs (credentials : Token)
| CreateJob (job : JobCreate.t)
| CreateApplication (application : ApplicationCreate.t) (credentials : Token)
| GetApplications (credentials : Token).

Section Server.

Variable pwd_context : CryptContext.
Variable strptime : string -> option date.

(** The database after [request] is served at instant [now]. *)
Definition serve (request : Request) (now : Z) (db : DB) : DB :=
  match request with
  | Signup form resume salt =>
      fst (signup pwd_context strptime form resume salt now db)
  | GetJobs title location category =>
      fst (get_jobs title location category now db)
  | CreateJob job => fst (create_job job now db)
  | CreateApplication application credentials =>
      match get_current_user credentials now db with
      | Return current_user =>
          fst (create_application application current_user now db)
      | Raise _ => db
      end
  | Login _ | GetRecommendedJobs _ | GetApplications _ => db
  end.

(** [runs db db']: some sequence of requests leads from [db] to [db']. *)
Inductive runs (db : DB) : DB -> Prop :=
| runs_none : runs db db
| runs_serve : forall db' request now,
    runs db db' -> runs db (serve request now db').

Inductive reachable : DB -> Prop :=
| reachable_empty : reachable empty_db
| reachable_serve : forall db request now,
    reachable db -> reachable (serve request now db).

End Server.

(** * Specification vocabulary *)

(** [occurs_in sub s]: [sub] is a substring of [s]. *)
Definition occurs_in (sub s : string) : Prop :=
  exists before after, s = before ++ sub ++ after.

(** Entry [i] of [table] is the first one whose major occurs in
    [user_major]. *)
Definition first_match (table : list (string * list string))
    (user_major : string) (i : nat) (major : string) (keywords : list string)
    : Prop :=
  nth_error table i = Some (major, keywords)
  /\ occurs_in major user_major
  /\ forall k m ks, (k < i)%nat -> nth_error table k = Some (m, ks) ->
       ~ occurs_in m user_major.

Definition no_match (table : list (string * list string))
    (user_major : string) : Prop :=
  forall m ks, In (m, ks) table -> ~ occurs_in m user_major.

(** [occurs_nocase sub s]: [sub] is a substring, up to the case of the
    letters A-Z, of what [s] holds before its first NUL. *)
Definition occurs_nocase (sub s : string) : bool :=
  Text.is_in (Text.lower sub) (Text.lower (Text.until_nul s)).

Fixpoint nul_free (s : string) : bool :=
  match s with
  | EmptyString => true
  | String c s' => negb (Text.code c =? 0) && nul_free s'
  end.

(** Some keyword occurs so in the title or in the category. *)
Definition keyword_hit (keywords : list string) (j : Job.t) : bool :=
  existsb
    (fun keyword =>
       occurs_nocase keyword (Job.title j)
       || occurs_nocase keyword (Job.category j))
    keywords.

(** The same test on the whole of the title and of the category, as the
    claim words it. *)
Definition keyword_in_text (keywords : list string) (j : Job.t) : bool :=
  existsb
    (fun keyword =>
       Text.is_in (Text.lower keyword) (Text.lower (Job.title j))
       || Text.is_in (Text.lower keyword) (Text.lower (Job.category j)))
    keywords.

(** Every keyword list of the table is non-empty and made of plain
    keywords. *)
Definition usable (keywords : list string) : bool :=
  negb (is_empty keywords) && forallb Text.plain keywords.

(** The test the search applies to one job: every filter that is provided
    (not [None], not empty) must hold. *)
Definition selected (title location category : option string) (j : Job.t)
    : bool :=
  match Text.provided title with
  | Some t => Text.contains (Job.title j) t
  | None => true
  end
  && match Text.provided location with
     | Some l => Text.contains (Job.location j) l
     | None => true
     end
  && match Text.provided category with
     | Some c => String.eqb c "Any" || String.eqb (Job.category j) c
     | None => true
     end.




(** Job id [job_id] resolves to a row of the catalog. *)
Definition resolves (db : DB) (job_id : Z) : bool :=
  existsb (fun j => Job.id j =? job_id) (jobs db).

(** User [user_id] has an application for [job_id]. *)
Definition applied (db : DB) (user_id job_id : Z) : bool :=
  existsb
    (fun a => (JobApplication.user_id a =? user_id)
              && (JobApplication.job_id a =? job_id))
    (applications db).

Definition pair_of (a : JobApplication.t) : Z * Z :=
  (JobApplication.user_id a, JobApplication.job_id a).

(** At most one application per (user, job) pair. *)
Definition at_most_one (db : DB) : Prop :=
  NoDup (map pair_of (applications db)).

(** Every application refers to a job of the catalog. *)
Definition jobs_resolve (db : DB) : Prop :=
  forall a, In a (applications db) ->
    resolves db (JobApplication.job_id a) = true.

Definition consistent (db : DB) : Prop := at_most_one db /\ jobs_resolve db.

(** A password the hash function takes whole: at most 72 bytes. *)
Definition fits (password : list Z) : Prop :=
  exists bytes,
    Utf8.encode password = Some bytes /\ (List.length bytes <= 72)%nat.

(** The hashing is taken as ideal on the passwords bcrypt accepts, those
    of at most 72 bytes without a NUL: a hash verifies the password it was
    made from and no other. *)
Definition faithful (pwd_context : CryptContext) : Prop :=
  forall salt p q, fits p -> fits q ->
    has_nul p = false -> has_nul q = false ->
    (check pwd_context q (digest pwd_context salt p) = true <-> q = p).

(** A password both the codec and bcrypt take: it encodes to UTF-8 and
    what the 72-byte cut keeps of it holds no NUL. *)
Definition well_formed (password : list Z) : Prop :=
  Utf8.encode password <> None
  /\ has_nul (Utf8.whole_chars 72 password) = false.

(** The instant from which a token issued at [issued] is expired: 1800
    seconds after the second in which it was issued began. *)
Definition expiry (issued : Z) : Z := (issued / 1000000 + 1800) * 1000000.

(** [str_lower] folds A-Z on ASCII text, as [str.lower] does. *)
Fixpoint ascii_text (s : string) : bool :=
  match s with
  | EmptyString => true
  | String c s' => (Text.code c <? 128) && ascii_text s'
  end.

Definition lowers_ascii (str_lower : string -> string) : Prop :=
  forall s, ascii_text s = true -> str_lower s = Text.lower s.

(** Every job id an application holds is one SQLite binds. *)
Definition ids_bound (db : DB) : Prop :=
  forall a, In a (applications db) ->
    int64 (JobApplication.job_id a) = true.

Definition by_email (email : string) (u : User.t) : bool :=
  String.eqb (User.email u) email.

(** The bytes of a code point, by their ranges. *)
Inductive shape (c : Z) : list Z -> Prop :=
| shape1 : 0 <= c < 128 -> shape c [c]
| shape2 : forall b0 b1,
    194 <= b0 <= 223 -> 128 <= b1 <= 191 ->
    c = (b0 - 192) * 64 + (b1 - 128) -> 128 <= c < 2048 ->
    shape c [b0; b1]
| shape3 : forall b0 b1 b2,
    224 <= b0 <= 239 -> 128 <= b1 <= 191 -> 128 <= b2 <= 191 ->
    (b0 = 224 -> 160 <= b1) -> (b0 = 237 -> b1 <= 159) ->
    c = (b0 - 224) * 4096 + (b1 - 128) * 64 + (b2 - 128) ->
    2048 <= c < 65536 ->
    shape c [b0; b1; b2]
| shape4 : forall b0 b1 b2 b3,
    240 <= b0 <= 244 -> 128 <= b1 <= 191 -> 128 <= b2 <= 191 ->
    128 <= b3 <= 191 ->
    (b0 = 240 -> 144 <= b1) -> (b0 = 244 -> b1 <= 143) ->
    c = (b0 - 240) * 262144 + (b1 - 128) * 4096 + (b2 - 128) * 64
        + (b3 - 128) ->
    65536 <= c ->
    shape c [b0; b1; b2; b3].

(** * Sample states

    The users, requests and databases at which the theorems are
    instantiated. *)

(** The catalog after the first listing on an empty database. *)
Definition seeded_db : DB := fst (get_jobs None None None 0 empty_db).

(** A user whose field of study names two majors of the table. *)
Definition double_major : User.t :=
  User.mk 1 "ada@example.org" "" "Ada" None "London" None
    (Some "Computer Science and Data Science") "bus" None 0.

Definition computer_science_keywords : list string :=
  ["developer"; "software"; "programmer"; "engineer"; "it"; "tech"; "data";
   "web"].

Definition data_science_keywords : list string :=
  ["data"; "analyst"; "scientist"; "analytics"; "bi"; "machine learning"].

(** A user whose field of study is the example of the specification. *)
Definition two_sciences : User.t :=
  User.mk 3 "lin@example.org" "" "Lin" None "Turin" None
    (Some "computer science and data science") "train" None 0.

(** A user whose field of study is in no entry of the table. *)
Definition philosopher : User.t :=
  User.mk 2 "kit@example.org" "" "Kit" None "Oslo" None (Some "Philosophy")
    "tram" None 0.

(** Three postings created through [POST /jobs/]: one has an underscore in
    its title, one an empty category. *)
Definition three_postings : DB :=
  let analyst :=
    JobCreate.mk "Data Analyst" "Data Insights" "San Francisco, CA"
      (Some 70000) (Some 110000) "Analyze business data." "SQL" "Contract"
      "IT" false in
  let clerk :=
    JobCreate.mk "Dat_ Entry Clerk" "Paper Co" "Scranton, PA"
      (Some 30000) (Some 40000) "Key in forms." "Typing" "Part-time"
      "Other" false in
  let gardener :=
    JobCreate.mk "Gardener" "Green Co" "Portland, OR"
      (Some 28000) (Some 35000) "Tend the grounds." "None" "Full-time"
      "" false in
  fst (create_job gardener 0
         (fst (create_job clerk 0 (fst (create_job analyst 0 empty_db))))).

(** Two postings created through [POST /jobs/]; the title of the second
    holds a NUL character before the word "developer". *)
Definition nul_title : string := String "a" (String "000" " developer").

Definition nul_postings : DB :=
  let nurse :=
    JobCreate.mk "Nurse" "City Hospital" "Leeds" None None "Ward work."
      "Registration" "Full-time" "Healthcare" false in
  let odd :=
    JobCreate.mk nul_title "Null Ltd" "Remote" None None "Write code."
      "None" "Full-time" "Other" true in
  fst (create_job odd 0 (fst (create_job nurse 0 empty_db))).



(** A password hashing for the examples: the password is stored in clear,
    one signed run of strokes per code point. *)
Fixpoint strokes (n : nat) (rest : string) : string :=
  match n with
  | O => rest
  | S n' => String "1" (strokes n' rest)
  end.

Fixpoint in_clear (password : list Z) : string :=
  match password with
  | [] => ""
  | c :: password' =>
      String (if c <? 0 then "-" else "+")
        (strokes (Z.abs_nat c) (String ";" (in_clear password')))
  end.

Definition clear_context : CryptContext :=
  mkCryptContext (fun _ password => in_clear password)
    (fun password hashed => String.eqb hashed (in_clear password)).

Definition no_dates : string -> option date := fun _ => None.

(** A user who has applied to a job that is not in the catalog. *)
Definition orphan_application : DB :=
  mkDB [double_major] [] [JobApplication.mk 1 1 7 "pending" 0].

(** A run of the server: the first listing seeds the catalog, a user signs
    up, and applies for job 3. *)
Definition ada_form : UserCreate.t :=
  UserCreate.mk "ada@example.org" [104; 117; 110; 116; 101; 114; 50] "Ada"
    None "London" None "Computer Science and Data Science" "bus".

Definition ada_token : Token := mkToken "ada@example.org" 2000.

Definition listed_db : DB :=
  serve clear_context no_dates (GetJobs None None None) 10 empty_db.

Definition signed_up_db : DB :=
  fst (signup clear_context no_dates ada_form false 0 20 listed_db).

Definition busy_db : DB :=
  serve clear_context no_dates
    (CreateApplication (ApplicationCreate.mk 3) ada_token) 30 signed_up_db.

(** A password of 71 letters and one two-byte character, 73 bytes. *)
Definition long_password : list Z := (repeat 97 71 ++ [233])%list.

Definition long_db : DB :=
  let form :=
    UserCreate.mk "eve@example.org" long_password "Eve" None "Paris" None
      "Nursing" "bike" in
  fst (signup clear_context no_dates form false 0 20 empty_db).

Definition ada_login : LoginRequest.t :=
  LoginRequest.mk "ada@example.org" [104; 117; 110; 116; 101; 114; 50].

Definition ada_user : User.t := hd double_major (users signed_up_db).

(** * Further vocabulary *)

(** A date field the sign-up can read: absent, empty, or one [strptime]
    parses. *)
Definition date_ok (strptime : string -> option date)
    (field : option string) : Prop :=
  match Text.provided field with
  | None => True
  | Some s => strptime s <> None
  end.

(** The summary [get_applications] builds from an application and its
    job. *)
Definition summary_of (app : JobApplication.t) (job : Job.t)
    : ApplicationSummary :=
  mkApplicationSummary (JobApplication.id app) (Job.title job)
    (Job.company job) (JobApplication.applied_at app)
    (JobApplication.status app).

(** An application of user [user_id] whose job is in the catalog. *)
Definition listed (db : DB) (user_id : Z) (a : JobApplication.t) : bool :=
  (JobApplication.user_id a =? user_id)
  && resolves db (JobApplication.job_id a).

(** [extends l l']: [l'] is [l] with rows appended. *)
Definition extends {A : Type} (l l' : list A) : Prop :=
  exists extra, l' = (l ++ extra)%list.

Definition emails_unique (db : DB) : Prop :=
  NoDup (map User.email (users db)).

Definition keys_unique (db : DB) : Prop :=
  NoDup (map User.id (users db))
  /\ NoDup (map Job.id (jobs db))
  /\ NoDup (map JobApplication.id (applications db)).

(** Every application belongs to a row of the users table. *)
Definition users_resolve (db : DB) : Prop :=
  forall a, In a (applications db) ->
    existsb (fun u => User.id u =? JobApplication.user_id a) (users db)
    = true.

(** The ids of a table are 1, 2, ... in the order of its rows. *)
Definition numbered {A : Type} (id : A -> Z) (rows : list A) : Prop :=
  map id rows = map Z.of_nat (seq 1 (List.length rows)).

Definition all_pending (db : DB) : Prop :=
  forall a, In a (applications db) -> JobApplication.status a = "pending".

(** More sample data. *)

(** A password holding a lone surrogate, which UTF-8 does not encode, and
    one holding a NUL, which bcrypt does not take. *)
Definition surrogate_password : list Z := [112; 55296].

(** A [strptime] that reads one date. *)
Definition one_date : string -> option date :=
  fun s => if String.eqb s "1990-01-02" then Some (1990, 1, 2) else None.

Definition bob_form : UserCreate.t :=
  UserCreate.mk "bob@example.org" [49; 50; 51] "Bob" (Some "1990-01-02")
    "Leeds" (Some "") "Marketing" "car".

Definition ada_response : AuthResponse :=
  mkAuthResponse (create_access_token "ada@example.org" 20) "bearer" ada_user.

(** A posting to create. *)
Definition baker : JobCreate.t :=
  JobCreate.mk "Baker" "Bread Co" "Lyon" None None "Bake." "Early riser"
    "Full-time" "Other" false.

(** * Text lemmas *)

Module TextFacts.
Import Text.

Lemma startswith_spec : forall p s,
  startswith p s = true <-> exists rest, s = p ++ rest.
Proof.
  induction p as [|a p IH]; intros s; simpl.
  - split; [intros _; now exists s | reflexivity].
  - destruct s as [|b s].
    + split; [discriminate | intros [r Hr]; discriminate].
    + rewrite andb_true_iff, Ascii.eqb_eq, IH. split.
      * intros [-> [r ->]]. now exists r.
      * intros [r Hr]. injection Hr as -> ->. split; [reflexivity | now exists r].
Qed.

Lemma is_in_unfold : forall sub s,
  is_in sub s =
  startswith sub s
  || match s with EmptyString => false | String _ s' => is_in sub s' end.
Proof. intros sub [|c s]; reflexivity. Qed.

Lemma is_in_spec : forall sub s, is_in sub s = true <-> occurs_in sub s.
Proof.
  intros sub s; induction s as [|c s IH]; rewrite is_in_unfold,
    orb_true_iff, startswith_spec.
  - split.
    + intros [[r Hr] | H]; [now exists "", r | discriminate].
    + intros [[|x b] [a H]]; [left; now exists a | discriminate].
  - rewrite IH. split.
    + intros [[r Hr] | [b [a H]]]; [now exists "", r |].
      exists (String c b), a. simpl. now rewrite H.
    + intros [[|x b] [a H]]; [left; now exists a |].
      right. injection H as _ H. now exists b, a.
Qed.

Lemma is_in_false : forall sub s, is_in sub s = false <-> ~ occurs_in sub s.
Proof.
  intros sub s. rewrite <- is_in_spec. destruct (is_in sub s); split;
    congruence.
Qed.

Lemma code_range : forall c, 0 <= code c < 256.
Proof. intros [[] [] [] [] [] [] [] []]; vm_compute; split; congruence. Qed.

Lemma code_lower_char : forall c, code (lower_char c) = fold_case (code c).
Proof. intros [[] [] [] [] [] [] [] []]; reflexivity. Qed.

Lemma code_inj : forall a b, code a = code b -> a = b.
Proof.
  intros a b H. unfold code in H. apply N2Z.inj in H.
  rewrite <- (ascii_N_embedding a), <- (ascii_N_embedding b). now rewrite H.
Qed.

Lemma eqb_code : forall a b, Ascii.eqb a b = (code a =? code b).
Proof.
  intros a b. destruct (Ascii.eqb_spec a b) as [->|Hne].
  - symmetry. apply Z.eqb_refl.
  - symmetry. apply Z.eqb_neq. intros H. now apply Hne, code_inj.
Qed.

Lemma fold_case_cases : forall c,
  (65 <= c <= 90 /\ fold_case c = c + 32)
  \/ ((c < 65 \/ 90 < c) /\ fold_case c = c).
Proof.
  intros c. unfold fold_case.
  destruct (Z.leb_spec 65 c), (Z.leb_spec c 90); cbn [andb]; lia.
Qed.

(** A letter or sign below 128 against any byte that stands alone. *)
Lemma same_eqb : forall a b,
  code a < 128 ->
  same (code a) (code b) = Ascii.eqb (lower_char a) (lower_char b).
Proof.
  intros a b Ha. rewrite eqb_code, !code_lower_char. unfold same.
  pose proof (code_range a). pose proof (code_range b).
  destruct (fold_case_cases (code a)) as [[? Ea]|[? Ea]],
           (fold_case_cases (code b)) as [[? Eb]|[? Eb]];
    rewrite Ea, Eb;
    destruct (Z.eqb_spec (code a) (code b)),
             (Z.ltb_spec (code a) 128), (Z.ltb_spec (code b) 128);
    cbn [andb orb];
    repeat match goal with
           | |- context [?x =? ?y] => destruct (Z.eqb_spec x y)
           end; try reflexivity; lia.
Qed.

Lemma settle_high : forall c, 128 <= settle c.
Proof.
  intros c. unfold settle.
  destruct (Z.ltb_spec c 128); cbn [orb]; [lia|].
  destruct (_ || _); lia.
Qed.

Lemma read_none : forall b s,
  read None (String b s)
  = if code b =? 0 then []
    else if 192 <=? code b then read (Some (lead (code b))) s
    else code b :: read None s.
Proof. reflexivity. Qed.

Lemma read_some : forall c b s,
  read (Some c) (String b s)
  = if code b =? 0 then [settle c]
    else if continuation (code b)
    then read (Some ((c * 64 + code b mod 64) mod 2 ^ 32)) s
    else settle c :: read None (String b s).
Proof.
  intros c b s. cbn [read flush].
  destruct (code b =? 0); reflexivity.
Qed.

(** A pending character comes out first, and is none below 128. *)
Lemma read_pending : forall s c,
  exists h t, read (Some c) s = h :: t /\ 128 <= h.
Proof.
  induction s as [|b s IH]; intros c.
  - exists (settle c), []. split; [reflexivity | apply settle_high].
  - rewrite read_some. destruct (code b =? 0).
    + exists (settle c), []. split; [reflexivity | apply settle_high].
    + destruct (continuation (code b)); [apply IH|].
      eexists _, _. split; [reflexivity | apply settle_high].
Qed.

Lemma like_chars_percent : forall pat s,
  like_chars (37 :: pat) s =
  like_chars pat s
  || match s with
     | [] => false
     | _ :: s' => like_chars (37 :: pat) s'
     end.
Proof. intros pat [|c s]; reflexivity. Qed.

Lemma like_chars_any : forall s, like_chars [37] s = true.
Proof.
  induction s as [|c s IH]; [reflexivity|].
  rewrite like_chars_percent, IH. apply orb_true_r.
Qed.

Lemma like_chars_literal : forall p pat s,
  p <> 37 ->
  like_chars (p :: pat) s
  = match s with
    | [] => false
    | c :: s' => (is_underscore p || same p c) && like_chars pat s'
    end.
Proof.
  intros p pat s Hp. cbn [like_chars]. unfold is_percent.
  destruct (Z.eqb_spec p 37); [contradiction | reflexivity].
Qed.

Lemma plain_head : forall a x,
  plain (String a x) = true ->
  0 < code a < 128 /\ code a <> 37 /\ code a <> 95 /\ plain x = true.
Proof.
  intros a x Hx. cbn [plain] in Hx.
  apply andb_true_iff in Hx as [Hx Hrest].
  apply andb_true_iff in Hx as [Hx H95].
  apply andb_true_iff in Hx as [Hx H37].
  apply andb_true_iff in Hx as [H0 H128].
  apply Z.ltb_lt in H0, H128.
  apply negb_true_iff, Z.eqb_neq in H37, H95.
  auto.
Qed.

(** The characters of plain text are its bytes. *)
Lemma read_plain : forall x rest,
  plain x = true ->
  read None (x ++ rest) = (map code (list_ascii_of_string x) ++ read None rest)%list.
Proof.
  induction x as [|a x IH]; intros rest Hx; [reflexivity|].
  apply plain_head in Hx as (Ha & _ & _ & Hx).
  cbn [String.append]. rewrite read_none.
  destruct (Z.eqb_spec (code a) 0); [lia|].
  destruct (Z.leb_spec 192 (code a)); [lia|].
  cbn [list_ascii_of_string map List.app]. now rewrite IH.
Qed.

(** A character of 128 or more matches no plain pattern character. *)
Lemma plain_not_high : forall p h,
  0 < p < 128 -> p <> 95 -> 128 <= h ->
  is_underscore p || same p h = false.
Proof.
  intros p h Hp H95 Hh. unfold is_underscore, same.
  destruct (Z.eqb_spec p 95); [contradiction|].
  destruct (Z.eqb_spec p h); [lia|].
  destruct (Z.ltb_spec h 128); [lia|]. now rewrite andb_false_r.
Qed.

Lemma lower_char_high : forall a b,
  code a < 128 -> 128 <= code b ->
  Ascii.eqb (lower_char a) (lower_char b) = false.
Proof.
  intros a b Ha Hb. rewrite eqb_code, !code_lower_char.
  apply Z.eqb_neq.
  destruct (fold_case_cases (code a)) as [[? ->]|[? ->]],
           (fold_case_cases (code b)) as [[? ->]|[? ->]]; lia.
Qed.

(** A plain text followed by [%] tests a prefix, up to ASCII case, of the
    text before the first NUL. *)
Lemma like_plain_prefix : forall x s,
  plain x = true ->
  like_chars (codes x ++ [37]) (read None s)
  = startswith (lower x) (lower (until_nul s)).
Proof.
  induction x as [|a x IH]; intros s Hx.
  - apply like_chars_any.
  - apply plain_head in Hx as (Ha & H37 & H95 & Hx).
    unfold codes. cbn [list_ascii_of_string map List.app].
    rewrite like_chars_literal by exact H37. fold (codes x).
    destruct s as [|b s]; [reflexivity|].
    rewrite read_none. cbn [until_nul].
    destruct (Z.eqb_spec (code b) 0); [reflexivity|].
    cbn [lower startswith].
    destruct (Z.leb_spec 192 (code b)).
    + destruct (read_pending s (lead (code b))) as (h & t & -> & Hh).
      rewrite plain_not_high by (trivial; lia).
      rewrite lower_char_high by lia. reflexivity.
    + rewrite IH by exact Hx. f_equal.
      unfold is_underscore. destruct (Z.eqb_spec (code a) 95); [contradiction|].
      cbn [orb]. apply same_eqb. lia.
Qed.

Lemma like_percent_plain : forall a x s,
  plain (String a x) = true ->
  like_chars (37 :: codes (String a x) ++ [37]) (read None s)
  = is_in (lower (String a x)) (lower (until_nul s))
  /\ forall c,
       like_chars (37 :: codes (String a x) ++ [37]) (read (Some c) s)
       = is_in (lower (String a x)) (lower (until_nul s)).
Proof.
  intros a x s Hx.
  pose proof (plain_head a x Hx) as (Ha & H37 & H95 & _).
  assert (Hhigh : forall h t,
             128 <= h ->
             like_chars (codes (String a x) ++ [37]) (h :: t) = false).
  { intros h t Hh. unfold codes. cbn [list_ascii_of_string map List.app].
    rewrite like_chars_literal by exact H37.
    now rewrite plain_not_high by (trivial; lia). }
  assert (Hfirst : forall b t,
             128 <= code b ->
             startswith (lower (String a x)) (lower (String b t)) = false).
  { intros b t Hb. cbn [lower startswith].
    now rewrite lower_char_high by lia. }
  assert (Hempty : like_chars (codes (String a x) ++ [37]) [] = false).
  { unfold codes. cbn [list_ascii_of_string map List.app].
    now rewrite like_chars_literal by exact H37. }
  induction s as [|b s [IHn IHs]].
  - split.
    { cbn [read flush]. now rewrite like_chars_percent, Hempty. }
    intros c. cbn [read flush].
    rewrite like_chars_percent, Hhigh by apply settle_high.
    now rewrite like_chars_percent, Hempty.
  - assert (Hn : like_chars (37 :: codes (String a x) ++ [37])
                   (read None (String b s))
                 = is_in (lower (String a x))
                     (lower (until_nul (String b s)))).
    { rewrite like_chars_percent, like_plain_prefix by exact Hx.
      rewrite read_none. cbn [until_nul].
      destruct (Z.eqb_spec (code b) 0); [reflexivity|].
      rewrite (is_in_unfold _ (lower (String b (until_nul s)))).
      cbn [lower]. f_equal.
      destruct (Z.leb_spec 192 (code b)).
      - destruct (read_pending s (lead (code b))) as (h & t & E & Hh).
        pose proof (IHs (lead (code b))) as Hs. rewrite E in Hs |- *.
        rewrite like_chars_percent, Hhigh in Hs by exact Hh. exact Hs.
      - exact IHn. }
    split; [exact Hn|]. intros c. rewrite read_some.
    cbn [until_nul] in *.
    destruct (Z.eqb_spec (code b) 0).
    + rewrite like_chars_percent, Hhigh by apply settle_high.
      now rewrite like_chars_percent, Hempty.
    + destruct (continuation (code b)) eqn:Hc.
      * rewrite IHs. rewrite (is_in_unfold _ (lower (String b (until_nul s)))).
        rewrite Hfirst; [reflexivity|].
        unfold continuation in Hc. apply andb_true_iff in Hc as [Hc _].
        now apply Z.leb_le in Hc.
      * rewrite like_chars_percent, Hhigh by apply settle_high.
        cbn [orb]. exact Hn.
Qed.


Lemma like_chars_all : forall s, like_chars [37; 37] s = true.
Proof.
  induction s as [|c s IH]; [reflexivity|].
  rewrite like_chars_percent, like_chars_any. reflexivity.
Qed.

Lemma chars_contains : forall x,
  plain x = true -> chars ("%" ++ x ++ "%") = 37 :: codes x ++ [37].
Proof.
  intros x Hx. unfold chars.
  change ("%" ++ x ++ "%") with (String "%" (x ++ "%")).
  rewrite read_none. change (code "%") with 37. cbn [Z.eqb Z.leb Z.compare].
  now rewrite read_plain.
Qed.

(** [contains] with a plain argument is substring containment, up to ASCII
    case, in the column's text before its first NUL. *)
Lemma contains_plain : forall column x,
  plain x = true ->
  contains column x = is_in (lower x) (lower (until_nul column)).
Proof.
  intros column x Hx. unfold contains, like.
  rewrite chars_contains by exact Hx.
  destruct x as [|a x].
  - cbn [codes list_ascii_of_string map List.app lower].
    rewrite like_chars_all. now destruct (lower (until_nul column)).
  - apply like_percent_plain. exact Hx.
Qed.

Lemma lower_char_idem : forall c, lower_char (lower_char c) = lower_char c.
Proof. intros [[] [] [] [] [] [] [] []]; reflexivity. Qed.

Lemma lower_idem : forall s, lower (lower s) = lower s.
Proof.
  induction s as [|c s IH]; simpl; [reflexivity|].
  now rewrite lower_char_idem, IH.
Qed.

Lemma lower_app : forall s t, lower (s ++ t) = lower s ++ lower t.
Proof.
  induction s as [|c s IH]; intros t; simpl; [reflexivity|].
  now rewrite IH.
Qed.

Lemma fold_case_test : forall n,
  (fold_case n =? 0) = (n =? 0)
  /\ (192 <=? fold_case n) = (192 <=? n)
  /\ continuation (fold_case n) = continuation n
  /\ (fold_case n <? 128) = (n <? 128)
  /\ (0 <? fold_case n) = (0 <? n)
  /\ is_percent (fold_case n) = is_percent n
  /\ is_underscore (fold_case n) = is_underscore n
  /\ fold_case n mod 64 = (if (65 <=? n) && (n <=? 90) then n - 32 else n) mod 64.
Proof.
  intros n. unfold continuation, is_percent, is_underscore.
  destruct (fold_case_cases n) as [[Hn E]|[Hn E]]; rewrite E.
  - destruct (Z.leb_spec 65 n), (Z.leb_spec n 90); try lia. cbn [andb].
    repeat split;
      repeat match goal with
             | |- context [?x =? ?y] => destruct (Z.eqb_spec x y)
             | |- context [?x <=? ?y] => destruct (Z.leb_spec x y)
             | |- context [?x <? ?y] => destruct (Z.ltb_spec x y)
             end; try reflexivity; try lia.
    replace (n + 32) with (n - 32 + 1 * 64) by lia.
    apply Z.mod_add. lia.
  - repeat split.
    destruct (Z.leb_spec 65 n), (Z.leb_spec n 90); cbn [andb]; trivial; lia.
Qed.

Lemma plain_lower : forall s, plain (lower s) = plain s.
Proof.
  induction s as [|c s IH]; [reflexivity|].
  cbn [lower plain]. rewrite code_lower_char, IH.
  destruct (fold_case_test (code c)) as (_ & _ & _ & -> & -> & -> & -> & _).
  reflexivity.
Qed.

Lemma until_nul_lower : forall s, until_nul (lower s) = lower (until_nul s).
Proof.
  induction s as [|c s IH]; [reflexivity|].
  cbn [lower until_nul]. rewrite code_lower_char.
  destruct (fold_case_test (code c)) as (-> & _).
  destruct (code c =? 0); [reflexivity|]. cbn [lower]. now rewrite IH.
Qed.

Lemma ilike_plain : forall column keyword,
  plain keyword = true ->
  ilike column ("%" ++ keyword ++ "%")
  = is_in (lower keyword) (lower (until_nul column)).
Proof.
  intros column keyword Hk. unfold ilike.
  rewrite !lower_app.
  change (lower "%") with "%".
  fold (contains (lower column) (lower keyword)).
  rewrite contains_plain by now rewrite plain_lower.
  now rewrite until_nul_lower, !lower_idem.
Qed.

Lemma fold_case_high : forall c, 128 <= c -> fold_case c = c.
Proof.
  intros c Hc. destruct (fold_case_cases c) as [[? _]|[_ E]]; [lia | exact E].
Qed.

(** Folding the letters of a text folds the characters read off it. *)
Lemma read_lower : forall s pending,
  read pending (lower s) = map fold_case (read pending s).
Proof.
  assert (Hflush : forall pending, flush pending = map fold_case (flush pending)).
  { intros [c|]; [|reflexivity]. cbn [flush map].
    now rewrite fold_case_high by apply settle_high. }
  induction s as [|b s IH]; intros pending; [apply Hflush|].
  cbn [lower].
  assert (Hb : 192 <= code b \/ continuation (code b) = true ->
               fold_case (code b) = code b).
  { intros H. apply fold_case_high. unfold continuation in H.
    destruct H as [H|H]; [lia|].
    apply andb_true_iff in H as [H _]. apply Z.leb_le in H. lia. }
  destruct (fold_case_test (code b)) as (E0 & E192 & Ec & _).
  assert (HN : read None (String (lower_char b) (lower s))
               = map fold_case (read None (String b s))).
  { rewrite !read_none, code_lower_char, E0, E192.
    destruct (code b =? 0); [reflexivity|].
    destruct (Z.leb_spec 192 (code b)).
    - rewrite Hb by now left. apply IH.
    - cbn [map]. now rewrite IH. }
  destruct pending as [c|]; [|exact HN].
  rewrite !read_some, code_lower_char, E0, Ec.
  destruct (code b =? 0); [apply (Hflush (Some c))|].
  destruct (continuation (code b)) eqn:Hc.
  - rewrite Hb by now right. apply IH.
  - cbn [map]. rewrite fold_case_high by apply settle_high. f_equal. exact HN.
Qed.

Lemma same_fold : forall p c, same (fold_case p) c = same p c.
Proof.
  intros p c. unfold same.
  destruct (fold_case_test p) as (_ & _ & _ & -> & _).
  assert (E : fold_case (fold_case p) = fold_case p).
  { destruct (fold_case_cases p) as [[? E]|[? E]]; rewrite E; [|exact E].
    destruct (fold_case_cases (p + 32)) as [[? _]|[_ E']]; [lia | exact E']. }
  rewrite E.
  destruct (fold_case_cases p) as [[Hp Ep]|[Hp Ep]]; rewrite Ep; [|reflexivity].
  destruct (Z.ltb_spec p 128); [|lia]. cbn [andb].
  destruct (Z.ltb_spec c 128); cbn [andb].
  - destruct (fold_case_cases c) as [[? Ec]|[? Ec]]; rewrite Ec;
      repeat match goal with
             | |- context [?x =? ?y] => destruct (Z.eqb_spec x y)
             end; cbn [orb]; try reflexivity; lia.
  - rewrite !orb_false_r.
    destruct (Z.eqb_spec (p + 32) c), (Z.eqb_spec p c); trivial; lia.
Qed.

Lemma like_chars_fold : forall pat s,
  like_chars (map fold_case pat) s = like_chars pat s.
Proof.
  induction pat as [|p pat IH]; intros s; [reflexivity|].
  cbn [map]. destruct (fold_case_test p) as (_ & _ & _ & _ & _ & Hp & Hu & _).
  destruct (is_percent p) eqn:E.
  - unfold is_percent in E, Hp. apply Z.eqb_eq in E. subst p.
    change (fold_case 37) with 37.
    induction s as [|c s IHs];
      rewrite (like_chars_percent (map fold_case pat)),
        (like_chars_percent pat), IH; [reflexivity|].
    now rewrite IHs.
  - cbn [like_chars]. rewrite Hp, E, Hu.
    destruct s as [|c s]; [reflexivity|]. now rewrite same_fold, IH.
Qed.

(** [LIKE] does not see the ASCII case of its pattern. *)
Lemma like_lower_pattern : forall pat s, like (lower pat) s = like pat s.
Proof.
  intros pat s. unfold like, chars. rewrite read_lower. apply like_chars_fold.
Qed.

Lemma contains_lower : forall column x,
  contains column (lower x) = contains column x.
Proof.
  intros column x. unfold contains.
  rewrite <- (like_lower_pattern ("%" ++ x ++ "%")).
  now rewrite !lower_app.
Qed.


End TextFacts.

(** * The recommendation matcher *)

Section Matcher.
Import Text TextFacts.

Lemma keywords_for_cases : forall table user_major,
  (exists i major keywords,
      first_match table user_major i major keywords
      /\ keywords_for table user_major = keywords)
  \/ (no_match table user_major /\ keywords_for table user_major = []).
Proof.
  induction table as [|[m ks] rest IH]; intros um.
  - right. split; [intros ? ? [] | reflexivity].
  - simpl. destruct (is_in m um) eqn:Hm.
    + left. exists 0%nat, m, ks. repeat split.
      * now apply is_in_spec.
      * intros k ? ? Hk. inversion Hk.
    + apply is_in_false in Hm.
      destruct (IH um)
        as [(i & major & kws & (Hn & Ho & Hb) & Hk)|[Hno Hk]].
      * left. exists (S i), major, kws. repeat split; trivial.
        intros [|k] m' ks' Hlt Hnth.
        -- simpl in Hnth. now injection Hnth as <- <-.
        -- apply (Hb k m' ks'); [lia | exact Hnth].
      * right. split; [|exact Hk].
        intros m' ks' [Heq|Hin]; [now injection Heq as <- <- | eauto].
Qed.

Lemma first_match_unique :
  forall table user_major i major keywords i' major' keywords',
  first_match table user_major i major keywords ->
  first_match table user_major i' major' keywords' ->
  i = i' /\ major = major' /\ keywords = keywords'.
Proof.
  intros table um i m ks i' m' ks' (Hn & Ho & Hb) (Hn' & Ho' & Hb').
  assert (i = i') as <-.
  { destruct (Nat.lt_trichotomy i i') as [Hlt|[Heq|Hgt]]; trivial.
    - now destruct (Hb' i m ks Hlt Hn).
    - now destruct (Hb i' m' ks' Hgt Hn'). }
  rewrite Hn in Hn'. now injection Hn' as <- <-.
Qed.

Lemma keywords_for_first : forall table user_major i major keywords,
  first_match table user_major i major keywords ->
  keywords_for table user_major = keywords.
Proof.
  intros table um i m ks H.
  destruct (keywords_for_cases table um) as [(i' & m' & ks' & H' & Hk)|[Hno _]].
  - destruct (first_match_unique _ _ _ _ _ _ _ _ H H') as (_ & _ & ->).
    exact Hk.
  - destruct H as (Hn & Ho & _). apply nth_error_In in Hn.
    now destruct (Hno m ks Hn).
Qed.

Lemma keywords_for_none : forall table user_major,
  no_match table user_major -> keywords_for table user_major = [].
Proof.
  intros table um Hno.
  destruct (keywords_for_cases table um) as [(i & m & ks & (Hn & Ho & _) & _)|[_ Hk]];
    [|exact Hk].
  apply nth_error_In in Hn. now destruct (Hno m ks Hn).
Qed.

Lemma major_keywords_usable : forall major keywords,
  In (major, keywords) major_keywords -> usable keywords = true.
Proof.
  assert (H : forallb (fun e => usable (snd e)) major_keywords = true)
    by reflexivity.
  intros major keywords Hin.
  rewrite forallb_forall in H. exact (H _ Hin).
Qed.

Lemma or_keyword_filters : forall keywords j,
  forallb plain keywords = true ->
  or_ (keyword_filters keywords) j = keyword_hit keywords j.
Proof.
  unfold or_, keyword_hit, occurs_nocase.
  induction keywords as [|k ks IH]; intros j Hp; [reflexivity|].
  cbn [forallb] in Hp. apply andb_true_iff in Hp as [Hk Hks].
  unfold keyword_filters in *. cbn [flat_map List.app existsb].
  rewrite !ilike_plain by exact Hk. rewrite IH by exact Hks.
  now rewrite orb_assoc.
Qed.

Lemma lowers_ascii_lower : lowers_ascii lower.
Proof. intros s _. reflexivity. Qed.

Lemma is_empty_firstn : forall (A : Type) (n : nat) (l : list A),
  is_empty (firstn (S n) l) = is_empty l.
Proof. intros A n [|x l]; reflexivity. Qed.

Lemma is_empty_nil : forall (A : Type) (l : list A),
  is_empty l = true -> l = [].
Proof. intros A [|x l]; [reflexivity | discriminate]. Qed.

End Matcher.

(** C1.  For every user, the keyword set the matcher selects is the one of
    the first table entry, in table order, whose major is a substring of the
    lowercased field of study, and no keyword at all when no major is,
    whatever [str.lower] makes of the field; the field "computer science and
    data science", which [str.lower] leaves as it is, and every field that
    [str.lower] turns into it, selects the keywords of "computer science",
    which are not those of "data science". *)
Theorem first_major_wins : forall str_lower,
  (forall current_user i major keywords,
      first_match major_keywords (user_major_of str_lower current_user) i
        major keywords ->
      keywords_for major_keywords (user_major_of str_lower current_user)
      = keywords)
  /\ (forall current_user,
      no_match major_keywords (user_major_of str_lower current_user) ->
      keywords_for major_keywords (user_major_of str_lower current_user) = [])
  /\ (lowers_ascii str_lower ->
      forall current_user,
      User.graduation_institution current_user
        = Some "computer science and data science" ->
      keywords_for major_keywords (user_major_of str_lower current_user)
        = computer_science_keywords
      /\ computer_science_keywords <> data_science_keywords)
  /\ (forall current_user field,
      User.graduation_institution current_user = Some field ->
      field <> "" ->
      str_lower field = "computer science and data science" ->
      keywords_for major_keywords (user_major_of str_lower current_user)
      = computer_science_keywords).
Proof.
  intros str_lower. split; [|split; [|split]].
  - intros u i major keywords. apply keywords_for_first.
  - intros u. apply keywords_for_none.
  - intros Hlower u Hu. unfold user_major_of. rewrite Hu. cbn [Text.truthy].
    rewrite Hlower by reflexivity. split; [reflexivity|].
    discriminate.
  - intros u field Hu Hne Hlow. unfold user_major_of. rewrite Hu.
    destruct field as [|c field]; [now destruct Hne|].
    cbn [Text.truthy]. rewrite Hlow. reflexivity.
Qed.

Lemma first_major_wins_witness :
  keywords_for major_keywords (user_major_of Text.lower double_major)
  = computer_science_keywords
  /\ keywords_for major_keywords (user_major_of Text.lower philosopher) = []
  /\ keywords_for major_keywords (user_major_of Text.lower two_sciences)
     = computer_science_keywords
  /\ keywords_for major_keywords (user_major_of Text.lower double_major)
     = computer_science_keywords.
Proof.
  split; [|split; [|split]].
  - apply (proj1 (first_major_wins Text.lower) double_major 0%nat
             "computer science").
    split; [reflexivity|]. split.
    + exists "", " and data science". reflexivity.
    + intros k m ks Hk. inversion Hk.
  - apply (proj1 (proj2 (first_major_wins Text.lower)) philosopher).
    intros m ks Hin. apply TextFacts.is_in_false.
    cbn [In major_keywords] in Hin.
    repeat (destruct Hin as [[= <- <-]|Hin]; [reflexivity|]).
    destruct Hin.
  - apply (proj1 (proj2 (proj2 (first_major_wins Text.lower)))
             lowers_ascii_lower two_sciences).
    reflexivity.
  - apply (proj2 (proj2 (proj2 (first_major_wins Text.lower))) double_major
             "Computer Science and Data Science");
      [reflexivity | discriminate | reflexivity].
Defined.

Lemma until_nul_free : forall s, nul_free s = true -> Text.until_nul s = s.
Proof.
  induction s as [|c s IH]; [reflexivity|].
  cbn [nul_free Text.until_nul]. intros H.
  apply andb_true_iff in H as [Hc Hs]. apply negb_true_iff in Hc.
  rewrite Hc. now rewrite IH.
Qed.

(** C2 as stated fails, on a catalog of two postings.  The title of the
    second holds the keyword "developer" behind a NUL character, so it is
    the one job in which a keyword of "computer science" occurs; but the
    [LIKE] of the query reads the title up to the NUL, finds no job, and the
    recommendation falls back to the first 10 jobs: both postings. *)
Lemma recommended_jobs_counterexample :
  let recommended := get_recommended_jobs Text.lower two_sciences nul_postings in
  let holding :=
    filter (keyword_in_text computer_science_keywords) (jobs nul_postings) in
  keywords_for major_keywords (user_major_of Text.lower two_sciences)
  = computer_science_keywords
  /\ map Job.title (jobs nul_postings) = ["Nurse"; nul_title]
  /\ Text.is_in "developer" (Text.lower nul_title) = true
  /\ map Job.title holding = [nul_title]
  /\ map Job.title recommended = ["Nurse"; nul_title]
  /\ recommended <> firstn 20 holding.
Proof.
  vm_compute. repeat split; discriminate.
Qed.

(** C2, amended.  The recommendation is a total function of the user and
    the catalog.  When a major matches, it is the first 20 jobs, in catalog
    order, in which a keyword of the selected set occurs, up to the case of
    the letters A-Z, in what the title or the category holds before its
    first NUL, and the first 10 jobs of the catalog when there is no such
    job; when no major matches it is the first 10 jobs of the catalog; and it
    is empty only if the catalog is.  For a title and a category without NUL
    the test is the one on the whole title and category. *)
Theorem recommended_jobs_spec : forall str_lower current_user db,
  let user_major := user_major_of str_lower current_user in
  let catalog := jobs db in
  (forall i major keywords,
      first_match major_keywords user_major i major keywords ->
      let hits := filter (keyword_hit keywords) catalog in
      get_recommended_jobs str_lower current_user db
      = if is_empty hits then firstn 10 catalog else firstn 20 hits)
  /\ (no_match major_keywords user_major ->
      get_recommended_jobs str_lower current_user db = firstn 10 catalog)
  /\ (get_recommended_jobs str_lower current_user db = [] -> catalog = [])
  /\ (forall keywords j,
      nul_free (Job.title j) = true -> nul_free (Job.category j) = true ->
      keyword_hit keywords j = keyword_in_text keywords j).
Proof.
  intros str_lower u db um catalog. unfold get_recommended_jobs, limit.
  fold um. fold catalog.
  assert (Hfirst : forall i major keywords,
             first_match major_keywords um i major keywords ->
             keywords_for major_keywords um = keywords
             /\ is_empty keywords = false
             /\ filter (or_ (keyword_filters keywords)) catalog
                = filter (keyword_hit keywords) catalog).
  { intros i major keywords H.
    pose proof (keywords_for_first _ _ _ _ _ H) as Hk.
    destruct H as (Hn & _). apply nth_error_In in Hn.
    apply major_keywords_usable in Hn. apply andb_true_iff in Hn as [He Hp].
    repeat split; trivial.
    - now apply negb_true_iff.
    - apply filter_ext. intros j. now apply or_keyword_filters. }
  split; [|split; [|split]].
  - intros i major keywords H.
    destruct (Hfirst _ _ _ H) as (-> & -> & ->).
    now rewrite is_empty_firstn.
  - intros Hno. now rewrite (keywords_for_none _ _ Hno).
  - destruct (is_empty (keywords_for major_keywords um)).
    + intros H. apply is_empty_nil. now rewrite <- (is_empty_firstn _ 9), H.
    + destruct (is_empty (firstn 20 _)) eqn:He.
      * intros H. apply is_empty_nil. now rewrite <- (is_empty_firstn _ 9), H.
      * intros H. now rewrite H in He.
  - intros keywords j Ht Hc. unfold keyword_hit, keyword_in_text, occurs_nocase.
    now rewrite !until_nul_free by assumption.
Qed.

Lemma recommended_jobs_spec_witness :
  (get_recommended_jobs Text.lower double_major seeded_db
   = if is_empty
          (filter (keyword_hit computer_science_keywords) (jobs seeded_db))
     then firstn 10 (jobs seeded_db)
     else firstn 20
            (filter (keyword_hit computer_science_keywords) (jobs seeded_db)))
  /\ get_recommended_jobs Text.lower philosopher seeded_db
     = firstn 10 (jobs seeded_db)
  /\ jobs empty_db = []
  /\ keyword_hit computer_science_keywords
       (hd (snd (create_job baker 0 empty_db)) (jobs three_postings))
     = keyword_in_text computer_science_keywords
         (hd (snd (create_job baker 0 empty_db)) (jobs three_postings)).
Proof.
  split; [|split; [|split]].
  - apply (proj1 (recommended_jobs_spec Text.lower double_major seeded_db)
             0%nat "computer science" computer_science_keywords).
    split; [reflexivity|]. split.
    + exists "", " and data science". reflexivity.
    + intros k m ks Hk. inversion Hk.
  - apply (proj1 (proj2 (recommended_jobs_spec Text.lower philosopher
                           seeded_db))).
    intros m ks Hin. apply TextFacts.is_in_false.
    cbn [In major_keywords] in Hin.
    repeat (destruct Hin as [[= <- <-]|Hin]; [reflexivity|]).
    destruct Hin.
  - apply (proj1 (proj2 (proj2 (recommended_jobs_spec Text.lower double_major
                                  empty_db)))).
    reflexivity.
  - apply (proj2 (proj2 (proj2 (recommended_jobs_spec Text.lower double_major
                                  empty_db)))); reflexivity.
Defined.

(** * The job catalog *)

Section Catalog.
Import Text TextFacts.

Lemma filter_and : forall (A : Type) (f g : A -> bool) (l : list A),
  filter g (filter f l) = filter (fun x => f x && g x) l.
Proof.
  intros A f g l; induction l as [|x l IH]; simpl; [reflexivity|].
  destruct (f x); simpl; [destruct (g x)|]; now rewrite IH.
Qed.

Lemma filter_true : forall (A : Type) (l : list A),
  filter (fun _ => true) l = l.
Proof. intros A l; induction l as [|x l IH]; simpl; now rewrite ?IH. Qed.

(** The rows the three conditional [filter] calls leave. *)
Lemma get_jobs_found : forall title location category now db,
  get_jobs title location category now db
  = let found := filter (selected title location category) (jobs db) in
    if is_empty found
    then (add_all_jobs now sample_jobs db,
          jobs (add_all_jobs now sample_jobs db))
    else (db, found).
Proof.
  intros title location category now db.
  unfold get_jobs. cbv zeta.
  match goal with
  | |- (if is_empty ?q then _ else _) = _ =>
      assert (E : q = filter (selected title location category) (jobs db))
  end.
  { unfold selected.
    destruct (provided title) as [t|], (provided location) as [l|],
      (provided category) as [c|];
      try destruct (String.eqb c "Any"); cbn [negb orb];
      rewrite ?filter_and;
      (apply filter_ext
       || (etransitivity; [symmetry; apply filter_true | apply filter_ext]));
      intros j; now rewrite ?andb_assoc, ?andb_true_r, ?andb_true_l. }
  now rewrite E.
Qed.


End Catalog.

(** C3.  The listing re-seeds a catalog that is not empty: on the seeded
    catalog of 85 postings, a search for a title no posting has inserts the
    85 sample postings a second time and returns all 170. *)
Theorem reseeding_on_empty_result :
  let after := get_jobs (Some "Plumber") None None 1 seeded_db in
  List.length (jobs seeded_db) = 85%nat
  /\ filter (selected (Some "Plumber") None None) (jobs seeded_db) = []
  /\ List.length (jobs (fst after)) = 170%nat
  /\ jobs (fst after) <> jobs seeded_db
  /\ snd after = jobs (fst after).
Proof.
  intros after.
  assert (Hnone : filter (selected (Some "Plumber") None None)
                    (jobs seeded_db) = []) by (vm_compute; reflexivity).
  assert (Hafter : after = (add_all_jobs 1 sample_jobs seeded_db,
                            jobs (add_all_jobs 1 sample_jobs seeded_db))).
  { unfold after. rewrite get_jobs_found. cbv zeta. rewrite Hnone. reflexivity. }
  assert (Hlen : List.length (jobs (fst after)) = 170%nat).
  { rewrite Hafter. vm_compute. reflexivity. }
  split; [vm_compute; reflexivity|].
  split; [exact Hnone|].
  split; [exact Hlen|].
  split.
  - intros H. apply (f_equal (@List.length _)) in H. rewrite Hlen in H.
    vm_compute in H. discriminate.
  - rewrite Hafter. reflexivity.
Qed.




(** * The application ledger *)

Section Ledger.

Lemma first_filter : forall (A : Type) (p : A -> bool) (l : list A),
  match first (filter p l) with
  | Some x => In x l /\ p x = true /\ existsb p l = true
  | None => existsb p l = false
  end.
Proof.
  intros A p l; induction l as [|x l IH]; simpl; [reflexivity|].
  destruct (p x) eqn:Hx; simpl.
  - repeat split; auto.
  - destruct (first (filter p l)) as [y|]; [|exact IH].
    destruct IH as (Hin & Hy & He). repeat split; auto.
Qed.

Lemma existsb_snoc : forall (A : Type) (p : A -> bool) (l : list A) (x : A),
  existsb p (l ++ [x]) = existsb p l || p x.
Proof.
  intros A p l x. rewrite existsb_app. simpl. now rewrite orb_false_r.
Qed.

Lemma create_application_overflow : forall application current_user now db,
  int64 (ApplicationCreate.job_id application) = false ->
  create_application application current_user now db
  = (db, Raise OverflowError).
Proof.
  intros application u now db H. unfold create_application. now rewrite H.
Qed.

Lemma create_application_duplicate : forall application current_user now db,
  int64 (ApplicationCreate.job_id application) = true ->
  applied db (User.id current_user) (ApplicationCreate.job_id application)
  = true ->
  create_application application current_user now db
  = (db, Raise (HTTPException 400 "Already applied")).
Proof.
  intros application u now db Hi H. unfold create_application, applied in *.
  rewrite Hi. cbn [negb].
  match goal with
  | |- context [first (filter ?p ?l)] => pose proof (first_filter _ p l) as F
  end.
  destruct (first (filter _ (applications db))); [reflexivity|].
  congruence.
Qed.

Lemma create_application_missing : forall application current_user now db,
  int64 (ApplicationCreate.job_id application) = true ->
  resolves db (ApplicationCreate.job_id application) = false ->
  applied db (User.id current_user) (ApplicationCreate.job_id application)
  = false ->
  create_application application current_user now db
  = (db, Raise (HTTPException 404 "Job not found")).
Proof.
  intros application u now db Hi Hr Ha.
  unfold create_application, applied, resolves in *.
  rewrite Hi. cbn [negb].
  match goal with
  | |- context [first (filter ?p (applications db))] =>
      pose proof (first_filter _ p (applications db)) as F
  end.
  destruct (first (filter _ (applications db))); [intuition congruence|].
  match goal with
  | |- context [first (filter ?p (jobs db))] =>
      pose proof (first_filter _ p (jobs db)) as G
  end.
  destruct (first (filter _ (jobs db))); [intuition congruence|reflexivity].
Qed.

Lemma create_application_fresh : forall application current_user now db,
  int64 (ApplicationCreate.job_id application) = true ->
  resolves db (ApplicationCreate.job_id application) = true ->
  applied db (User.id current_user) (ApplicationCreate.job_id application)
  = false ->
  exists job,
    In job (jobs db)
    /\ Job.id job = ApplicationCreate.job_id application
    /\ create_application application current_user now db
       = let row :=
           JobApplication.mk (next_id JobApplication.id (applications db))
             (User.id current_user) (ApplicationCreate.job_id application)
             "pending" now in
         (mkDB (users db) (jobs db) (applications db ++ [row]),
          Return
            (mkApplicationResponse "Application submitted successfully"
               (JobApplication.id row),
             mkConfirmation (User.email current_user) (Job.title job)
               (Job.company job))).
Proof.
  intros application u now db Hi Hr Ha.
  unfold create_application, applied, resolves in *.
  rewrite Hi. cbn [negb].
  match goal with
  | |- context [first (filter ?p (applications db))] =>
      pose proof (first_filter _ p (applications db)) as F
  end.
  destruct (first (filter _ (applications db))); [intuition congruence|].
  match goal with
  | |- context [first (filter ?p (jobs db))] =>
      pose proof (first_filter _ p (jobs db)) as G
  end.
  destruct (first (filter _ (jobs db))) as [job|]; [|congruence].
  destruct G as (Hin & Hid & _). apply Z.eqb_eq in Hid.
  exists job. repeat split; assumption.
Qed.

End Ledger.

(** * Reachable states *)

Section Invariant.

Variable pwd_context : CryptContext.
Variable strptime : string -> option date.

Lemma add_job_frame : forall now j db,
  users (fst (add_job now j db)) = users db
  /\ applications (fst (add_job now j db)) = applications db
  /\ exists row, jobs (fst (add_job now j db)) = (jobs db ++ [row])%list.
Proof. intros now j db. simpl. eauto. Qed.

Lemma add_all_jobs_frame : forall now rows db,
  users (add_all_jobs now rows db) = users db
  /\ applications (add_all_jobs now rows db) = applications db
  /\ exists extra, jobs (add_all_jobs now rows db) = (jobs db ++ extra)%list.
Proof.
  intros now rows; unfold add_all_jobs.
  induction rows as [|j rows IH]; intros db; cbn [fold_left].
  - repeat split. exists []. now rewrite app_nil_r.
  - destruct (IH (fst (add_job now j db))) as (Hu & Ha & extra & Hj).
    destruct (add_job_frame now j db) as (Hu' & Ha' & row & Hj').
    rewrite Hu, Ha, Hj, Hj'. repeat split; trivial.
    exists (row :: extra). now rewrite <- app_assoc.
Qed.

Lemma get_jobs_frame : forall title location category now db,
  users (fst (get_jobs title location category now db)) = users db
  /\ applications (fst (get_jobs title location category now db))
     = applications db
  /\ exists extra,
       jobs (fst (get_jobs title location category now db))
       = (jobs db ++ extra)%list.
Proof.
  intros title location category now db. rewrite get_jobs_found. cbv zeta.
  destruct (is_empty _); cbn [fst].
  - apply add_all_jobs_frame.
  - repeat split. exists []. now rewrite app_nil_r.
Qed.

Lemma signup_frame : forall form resume salt now db,
  jobs (fst (signup pwd_context strptime form resume salt now db)) = jobs db
  /\ applications (fst (signup pwd_context strptime form resume salt now db))
     = applications db.
Proof.
  intros form resume salt now db. unfold signup.
  destruct (first _); [now split|].
  destruct (get_password_hash _ _ _); [|now split].
  destruct (parse_date _ _); [|now split].
  destruct (parse_date _ _); now split.
Qed.

Lemma resolves_more : forall db db' extra job_id,
  jobs db' = (jobs db ++ extra)%list ->
  resolves db job_id = true -> resolves db' job_id = true.
Proof.
  intros db db' extra job_id Hj Hr. unfold resolves in *.
  rewrite Hj, existsb_app, Hr. reflexivity.
Qed.

Lemma consistent_frame : forall db db' extra,
  applications db' = applications db ->
  jobs db' = (jobs db ++ extra)%list ->
  consistent db -> consistent db'.
Proof.
  intros db db' extra Ha Hj [Hone Hres]. split.
  - unfold at_most_one. now rewrite Ha.
  - intros a Hin. rewrite Ha in Hin.
    eapply resolves_more; [exact Hj | now apply Hres].
Qed.

Lemma applied_false_fresh : forall db user_id job_id,
  applied db user_id job_id = false ->
  ~ In (user_id, job_id) (map pair_of (applications db)).
Proof.
  intros db uid jid Ha Hin. apply in_map_iff in Hin as (a & Hp & Hin).
  unfold applied in Ha.
  assert (existsb
            (fun a => (JobApplication.user_id a =? uid)
                      && (JobApplication.job_id a =? jid))
            (applications db) = true) as Ht.
  { apply existsb_exists. exists a. split; [exact Hin|].
    injection Hp as <- <-. now rewrite !Z.eqb_refl. }
  congruence.
Qed.

Lemma create_application_consistent : forall application current_user now db,
  consistent db ->
  consistent (fst (create_application application current_user now db)).
Proof.
  intros application u now db [Hone Hres].
  destruct (int64 (ApplicationCreate.job_id application)) eqn:Hi.
  2:{ now rewrite create_application_overflow. }
  destruct (applied db (User.id u) (ApplicationCreate.job_id application))
    eqn:Ha.
  { now rewrite create_application_duplicate. }
  destruct (resolves db (ApplicationCreate.job_id application)) eqn:Hr.
  2:{ now rewrite create_application_missing. }
  destruct (create_application_fresh application u now db Hi Hr Ha)
    as (job & _ & _ & ->).
  cbv zeta. cbn [fst]. split.
  - unfold at_most_one. cbn [applications]. rewrite map_app.
    apply NoDup_app; trivial.
    + repeat constructor. intros [].
    + intros p Hp [<-|[]]. revert Hp. now apply applied_false_fresh.
  - intros a Hin. cbn [applications] in Hin.
    apply in_app_or in Hin as [Hin|[<-|[]]].
    + exact (Hres a Hin).
    + exact Hr.
Qed.

Lemma serve_consistent : forall request now db,
  consistent db -> consistent (serve pwd_context strptime request now db).
Proof.
  intros [form resume salt|request|title location category|credentials|job
         |application credentials|credentials] now db H; cbn [serve];
    trivial.
  - destruct (signup_frame form resume salt now db) as [Hj Ha].
    apply (consistent_frame db _ []); trivial. now rewrite app_nil_r.
  - destruct (get_jobs_frame title location category now db)
      as (_ & Ha & extra & Hj).
    now apply (consistent_frame db _ extra).
  - destruct (add_job_frame now job db) as (_ & Ha & row & Hj).
    now apply (consistent_frame db _ [row]).
  - destruct (get_current_user _ _ _); trivial.
    now apply create_application_consistent.
Qed.

Lemma reachable_consistent : forall db,
  reachable pwd_context strptime db -> consistent db.
Proof.
  induction 1 as [|db request now _ IH].
  - split; [constructor | intros a []].
  - now apply serve_consistent.
Qed.

Lemma create_application_ids_bound : forall application current_user now db,
  ids_bound db ->
  ids_bound (fst (create_application application current_user now db)).
Proof.
  intros application u now db H.
  destruct (int64 (ApplicationCreate.job_id application)) eqn:Hi.
  2:{ now rewrite create_application_overflow. }
  destruct (applied db (User.id u) (ApplicationCreate.job_id application))
    eqn:Ha.
  { now rewrite create_application_duplicate. }
  destruct (resolves db (ApplicationCreate.job_id application)) eqn:Hr.
  2:{ now rewrite create_application_missing. }
  destruct (create_application_fresh application u now db Hi Hr Ha)
    as (job & _ & _ & ->).
  cbv zeta. cbn [fst]. intros a Hin. cbn [applications] in Hin.
  apply in_app_or in Hin as [Hin|[<-|[]]]; [now apply H | exact Hi].
Qed.

Lemma reachable_ids_bound : forall db,
  reachable pwd_context strptime db -> ids_bound db.
Proof.
  induction 1 as [|db request now _ IH]; [intros a []|].
  destruct request as [form resume salt|request|title location category
                      |credentials|job|application credentials|credentials];
    cbn [serve]; trivial.
  - unfold ids_bound.
    now destruct (signup_frame form resume salt now db) as [_ ->].
  - unfold ids_bound.
    now destruct (get_jobs_frame title location category now db)
      as (_ & -> & _).
  - destruct (get_current_user _ _ _); trivial.
    now apply create_application_ids_bound.
Qed.

(** In a reachable state a job that does not resolve has no application. *)
Lemma reachable_unresolved_unapplied : forall db user_id job_id,
  reachable pwd_context strptime db ->
  resolves db job_id = false ->
  applied db user_id job_id = false.
Proof.
  intros db uid jid Hreach Hr.
  destruct (reachable_consistent db Hreach) as [_ Hres].
  destruct (applied db uid jid) eqn:Ha; [|reflexivity].
  apply existsb_exists in Ha as (a & Hin & Ht).
  apply andb_true_iff in Ht as [_ Hj]. apply Z.eqb_eq in Hj.
  specialize (Hres a Hin). rewrite Hj in Hres. congruence.
Qed.

End Invariant.

Lemma busy_db_reachable : reachable clear_context no_dates busy_db.
Proof.
  unfold busy_db. apply reachable_serve.
  change signed_up_db
    with (serve clear_context no_dates (Signup ada_form false 0) 20
            listed_db).
  repeat apply reachable_serve. apply reachable_empty.
Qed.

(** C7.  When the job exists, under an id SQLite binds, and the user has
    not applied for it, the submission succeeds and adds one application,
    with status "pending", for this user and this job; the same submission
    on the resulting state fails with 400 "Already applied" and changes
    nothing.  Every state the server reaches from the empty database holds
    at most one application per (user, job) pair. *)
Theorem apply_once :
  (forall application current_user now later db,
      int64 (ApplicationCreate.job_id application) = true ->
      resolves db (ApplicationCreate.job_id application) = true ->
      applied db (User.id current_user) (ApplicationCreate.job_id application)
      = false ->
      exists row response,
        let db' := mkDB (users db) (jobs db) (applications db ++ [row]) in
        create_application application current_user now db
        = (db', Return response)
        /\ JobApplication.status row = "pending"
        /\ JobApplication.user_id row = User.id current_user
        /\ JobApplication.job_id row = ApplicationCreate.job_id application
        /\ application_id (fst response) = JobApplication.id row
        /\ create_application application current_user later db'
           = (db', Raise (HTTPException 400 "Already applied")))
  /\ (forall pwd_context strptime db,
      reachable pwd_context strptime db -> at_most_one db).
Proof.
  split.
  - intros application u now later db Hi Hr Ha.
    destruct (create_application_fresh application u now db Hi Hr Ha)
      as (job & _ & _ & E).
    cbv zeta in E. eexists _, _. cbv zeta. split; [exact E|].
    repeat (split; [reflexivity|]).
    apply create_application_duplicate; [exact Hi|].
    unfold applied. cbn [applications].
    rewrite existsb_snoc. cbn. rewrite !Z.eqb_refl. apply orb_true_r.
  - intros pwd_context strptime db H.
    exact (proj1 (reachable_consistent pwd_context strptime db H)).
Qed.

Lemma apply_once_witness :
  (exists row response,
      let db' :=
        mkDB (users three_postings) (jobs three_postings)
          (applications three_postings ++ [row]) in
      create_application (ApplicationCreate.mk 2) double_major 10 three_postings
      = (db', Return response)
      /\ JobApplication.status row = "pending"
      /\ JobApplication.user_id row = User.id double_major
      /\ JobApplication.job_id row = 2
      /\ application_id (fst response) = JobApplication.id row
      /\ create_application (ApplicationCreate.mk 2) double_major 20 db'
         = (db', Raise (HTTPException 400 "Already applied")))
  /\ at_most_one busy_db.
Proof.
  split.
  - apply (proj1 apply_once (ApplicationCreate.mk 2) double_major 10 20
             three_postings); reflexivity.
  - apply (proj2 apply_once clear_context no_dates busy_db).
    exact busy_db_reachable.
Defined.

(** C8 as stated fails, in two ways.  In a state where the user already has
    an application for job 7, which is not in the catalog, the submission
    fails with 400 "Already applied", not with 404 "Job not found".  And the
    id 2^63, which no job has, is one the SQLite driver does not bind: the
    first query raises [OverflowError]. *)
Lemma job_not_found_counterexample :
  let outcome :=
    create_application (ApplicationCreate.mk 7) double_major 5
      orphan_application in
  let beyond :=
    create_application (ApplicationCreate.mk 9223372036854775808)
      double_major 5 three_postings in
  (resolves orphan_application 7 = false
   /\ outcome
      = (orphan_application, Raise (HTTPException 400 "Already applied"))
   /\ snd outcome <> Raise (HTTPException 404 "Job not found"))
  /\ (resolves three_postings 9223372036854775808 = false
      /\ applied three_postings (User.id double_major) 9223372036854775808
         = false
      /\ beyond = (three_postings, Raise OverflowError)
      /\ snd beyond <> Raise (HTTPException 404 "Job not found")).
Proof.
  repeat split; discriminate.
Qed.

(** C8, amended.  For every state and every job id SQLite binds (a signed
    integer of 64 bits) that does not resolve and for which the user has no
    application, the submission fails with 404 "Job not found" and leaves
    the state as it is; the last condition holds in every state the server
    reaches from the empty database.  For an id SQLite does not bind the
    submission raises [OverflowError], and leaves the state as it is too. *)
Theorem job_not_found :
  (forall application current_user now db,
      int64 (ApplicationCreate.job_id application) = true ->
      resolves db (ApplicationCreate.job_id application) = false ->
      applied db (User.id current_user) (ApplicationCreate.job_id application)
      = false ->
      create_application application current_user now db
      = (db, Raise (HTTPException 404 "Job not found")))
  /\ (forall pwd_context strptime application current_user now db,
      reachable pwd_context strptime db ->
      int64 (ApplicationCreate.job_id application) = true ->
      resolves db (ApplicationCreate.job_id application) = false ->
      create_application application current_user now db
      = (db, Raise (HTTPException 404 "Job not found")))
  /\ (forall application current_user now db,
      int64 (ApplicationCreate.job_id application) = false ->
      create_application application current_user now db
      = (db, Raise OverflowError)).
Proof.
  split; [|split].
  - exact create_application_missing.
  - intros pwd_context strptime application u now db Hreach Hi Hr.
    apply create_application_missing; [exact Hi | exact Hr|].
    now apply (reachable_unresolved_unapplied pwd_context strptime).
  - exact create_application_overflow.
Qed.

Lemma job_not_found_witness :
  create_application (ApplicationCreate.mk 9) double_major 5 three_postings
  = (three_postings, Raise (HTTPException 404 "Job not found"))
  /\ create_application (ApplicationCreate.mk 999) double_major 40 busy_db
     = (busy_db, Raise (HTTPException 404 "Job not found"))
  /\ create_application (ApplicationCreate.mk (-9223372036854775809))
       double_major 40 busy_db
     = (busy_db, Raise OverflowError)
  /\ create_application (ApplicationCreate.mk 9223372036854775807)
       double_major 5 three_postings
     = (three_postings, Raise (HTTPException 404 "Job not found"))
  /\ create_application (ApplicationCreate.mk (-9223372036854775808))
       double_major 5 three_postings
     = (three_postings, Raise (HTTPException 404 "Job not found")).
Proof.
  split; [|split; [|split; [|split]]].
  - apply (proj1 job_not_found (ApplicationCreate.mk 9) double_major 5
             three_postings); reflexivity.
  - apply (proj1 (proj2 job_not_found) clear_context no_dates
             (ApplicationCreate.mk 999) double_major 40 busy_db).
    + exact busy_db_reachable.
    + reflexivity.
    + vm_compute. reflexivity.
  - apply (proj2 (proj2 job_not_found)). reflexivity.
  - apply (proj1 job_not_found (ApplicationCreate.mk 9223372036854775807)
             double_major 5 three_postings); reflexivity.
  - apply (proj1 job_not_found (ApplicationCreate.mk (-9223372036854775808))
             double_major 5 three_postings); reflexivity.
Defined.

(** C10.  The duplicate check comes first: whenever the user already has an
    application for the job id, the submission never fails with the 404 of a
    missing job, whether or not the id resolves to a job, and the state is
    unchanged; it fails with 400 "Already applied" for every id SQLite
    binds, which the id of an application is in every state the server
    reaches from the empty database. *)
Theorem duplicate_before_lookup : forall application current_user now db,
  applied db (User.id current_user) (ApplicationCreate.job_id application)
  = true ->
  (int64 (ApplicationCreate.job_id application) = true ->
   create_application application current_user now db
   = (db, Raise (HTTPException 400 "Already applied")))
  /\ (forall pwd_context strptime,
      reachable pwd_context strptime db ->
      create_application application current_user now db
      = (db, Raise (HTTPException 400 "Already applied")))
  /\ fst (create_application application current_user now db) = db
  /\ snd (create_application application current_user now db)
     <> Raise (HTTPException 404 "Job not found").
Proof.
  intros application u now db Ha.
  assert (Hreach : forall pwd_context strptime,
             reachable pwd_context strptime db ->
             int64 (ApplicationCreate.job_id application) = true).
  { intros pwd_context strptime H.
    apply existsb_exists in Ha as (a & Hin & Ht).
    apply andb_true_iff in Ht as [_ Hj]. apply Z.eqb_eq in Hj.
    rewrite <- Hj.
    exact (reachable_ids_bound pwd_context strptime db H a Hin). }
  split; [|split].
  - intros Hi. now apply create_application_duplicate.
  - intros pwd_context strptime H.
    apply create_application_duplicate; [|exact Ha].
    exact (Hreach pwd_context strptime H).
  - destruct (int64 (ApplicationCreate.job_id application)) eqn:Hi.
    + rewrite (create_application_duplicate application u now db Hi Ha).
      split; [reflexivity | discriminate].
    + rewrite (create_application_overflow application u now db Hi).
      split; [reflexivity | discriminate].
Qed.

Lemma duplicate_before_lookup_witness :
  resolves orphan_application 7 = false
  /\ create_application (ApplicationCreate.mk 7) double_major 5
       orphan_application
     = (orphan_application, Raise (HTTPException 400 "Already applied"))
  /\ create_application (ApplicationCreate.mk 3) ada_user 40 busy_db
     = (busy_db, Raise (HTTPException 400 "Already applied")).
Proof.
  split; [reflexivity|]. split.
  - apply (proj1 (duplicate_before_lookup (ApplicationCreate.mk 7)
                    double_major 5 orphan_application eq_refl)).
    reflexivity.
  - refine (proj1 (proj2 (duplicate_before_lookup (ApplicationCreate.mk 3)
                            ada_user 40 busy_db _))
              clear_context no_dates busy_db_reachable).
    vm_compute. reflexivity.
Defined.

(** * The password truncation *)

Module Utf8Facts.
Import Utf8.

Ltac arith := Z.to_euclidean_division_equations; lia.

(** The comparison a boolean test starts with. *)
Ltac leading t :=
  lazymatch t with
  | andb ?a _ => leading a
  | (if ?c then _ else _) => leading c
  | _ => t
  end.

Ltac as_order E :=
  first [ apply Z.leb_le in E | apply Z.leb_gt in E
        | apply Z.ltb_lt in E | apply Z.ltb_ge in E
        | apply Z.eqb_eq in E | apply Z.eqb_neq in E ].

(** Runs the decoder on explicit bytes, following the branch the known
    ranges of the bytes select. *)
Ltac run_decoder :=
  repeat (cbn [andb decode_ignore firstn List.app];
          unfold second_ok, cont;
          match goal with
          | |- context [if ?t then _ else _] =>
              let a := leading t in
              let E := fresh "E" in
              destruct a eqn:E; as_order E; try lia
          end).

Lemma some_eq : forall (A : Type) (x y : A), Some x = Some y -> y = x.
Proof. congruence. Qed.

Lemma encode_char_shape : forall c b, encode_char c = Some b -> shape c b.
Proof.
  intros c b. unfold encode_char.
  destruct (c <? 0) eqn:E0; [discriminate|]. as_order E0.
  destruct (c <? 128) eqn:E1; as_order E1.
  { intros H. apply some_eq in H. subst b. apply shape1. lia. }
  destruct (c <? 2048) eqn:E2; as_order E2.
  { intros H. apply some_eq in H. subst b. apply shape2; arith. }
  destruct (c <? 65536) eqn:E3; as_order E3.
  { destruct (55296 <=? c) eqn:E4; as_order E4;
      [destruct (c <=? 57343) eqn:E5; as_order E5|]; cbn [andb];
      try discriminate;
      intros H; apply some_eq in H; subst b; apply shape3; arith. }
  destruct (c <? 1114112) eqn:E6; as_order E6; [|discriminate].
  intros H. apply some_eq in H. subst b. apply shape4; arith.
Qed.

Lemma encode_char_width : forall c b,
  encode_char c = Some b -> List.length b = width c.
Proof.
  intros c b H. apply encode_char_shape in H. unfold width.
  destruct H;
    repeat match goal with
           | |- context [?x <? ?y] =>
               let E := fresh "E" in destruct (x <? y) eqn:E; as_order E
           end; first [reflexivity | lia].
Qed.

(** A whole character at the head is decoded, whatever follows. *)
Lemma decode_encode_char : forall c b rest,
  encode_char c = Some b ->
  decode_ignore (b ++ rest) = c :: decode_ignore rest.
Proof.
  intros c b rest H. apply encode_char_shape in H.
  destruct H; run_decoder; f_equal; lia.
Qed.

(** The first bytes of a character, cut before its end, are dropped. *)
Lemma decode_partial : forall c b n,
  encode_char c = Some b -> (n < List.length b)%nat ->
  decode_ignore (firstn n b) = [].
Proof.
  intros c b n H Hn. apply encode_char_shape in H.
  destruct H; cbn [List.length] in Hn;
    destruct n as [|[|[|[|n]]]]; try lia; run_decoder; reflexivity.
Qed.

Lemma encode_cons : forall c s bs,
  encode (c :: s) = Some bs ->
  exists b bs', encode_char c = Some b /\ encode s = Some bs'
                /\ bs = (b ++ bs')%list.
Proof.
  intros c s bs. cbn [encode].
  destruct (encode_char c) as [b|]; [|discriminate].
  destruct (encode s) as [bs'|]; [|discriminate].
  intros [= <-]. now exists b, bs'.
Qed.

(** Cutting the encoding after [n] bytes and decoding what is left keeps
    the characters that fit whole. *)
Lemma decode_firstn_encode : forall s n bs,
  encode s = Some bs ->
  decode_ignore (firstn n bs) = whole_chars n s.
Proof.
  induction s as [|c s IH]; intros n bs H.
  - injection H as <-. now rewrite firstn_nil.
  - apply encode_cons in H as (b & bs' & Hc & Hs & ->).
    pose proof (encode_char_width c b Hc) as Hw.
    rewrite firstn_app. cbn [whole_chars]. rewrite <- Hw.
    destruct (Nat.leb_spec (List.length b) n) as [Hle|Hlt].
    + rewrite firstn_all2 by exact Hle.
      rewrite (decode_encode_char c b _ Hc). f_equal. now apply IH.
    + replace (n - List.length b)%nat with 0%nat by lia.
      cbn [firstn]. rewrite app_nil_r. now apply (decode_partial c).
Qed.

(** What is kept encodes again, into at most [n] bytes. *)
Lemma encode_whole_chars : forall s n bs,
  encode s = Some bs ->
  exists bs', encode (whole_chars n s) = Some bs'
              /\ (List.length bs' <= n)%nat.
Proof.
  induction s as [|c s IH]; intros n bs H.
  - exists []. split; [reflexivity | cbn; lia].
  - apply encode_cons in H as (b & bs' & Hc & Hs & ->).
    pose proof (encode_char_width c b Hc) as Hw.
    cbn [whole_chars]. destruct (Nat.leb_spec (width c) n) as [Hle|Hlt].
    + destruct (IH (n - width c)%nat bs' Hs) as (t & Ht & Hlen).
      exists (b ++ t)%list. cbn [encode]. rewrite Hc, Ht. split; trivial.
      rewrite length_app. lia.
    + exists []. split; [reflexivity | cbn; lia].
Qed.

End Utf8Facts.

(** * Authentication *)

Section Credentials.
Import Utf8 Utf8Facts.

Lemma strokes_inj : forall n m rest rest',
  strokes n (String ";" rest) = strokes m (String ";" rest') ->
  n = m /\ rest = rest'.
Proof.
  induction n as [|n IH]; intros [|m] rest rest' H; cbn in H;
    try discriminate.
  - now injection H as <-.
  - injection H as H. now destruct (IH m rest rest' H) as [<- <-].
Qed.

Lemma in_clear_inj : forall p q, in_clear p = in_clear q -> p = q.
Proof.
  induction p as [|c p IH]; intros [|d q] H; cbn in H; try discriminate;
    [reflexivity|].
  injection H as Hsign H. apply strokes_inj in H as [Habs H].
  f_equal; [|now apply IH].
  destruct (Z.ltb_spec c 0), (Z.ltb_spec d 0); try discriminate; lia.
Qed.

Lemma clear_context_faithful : faithful clear_context.
Proof.
  intros salt p q _ _ _ _. cbn. rewrite String.eqb_eq. split.
  - intros H. symmetry. now apply in_clear_inj.
  - now intros ->.
Qed.

Variable pwd_context : CryptContext.

Lemma verify_password_truncates : forall plain_password hashed_password bytes,
  encode plain_password = Some bytes ->
  verify_password pwd_context plain_password hashed_password
  = verify pwd_context (whole_chars 72 plain_password) hashed_password.
Proof.
  intros p h bytes H. unfold verify_password. rewrite H.
  now rewrite (decode_firstn_encode p 72 bytes H).
Qed.

Lemma get_password_hash_truncates : forall salt password hashed,
  get_password_hash pwd_context salt password = Return hashed ->
  well_formed password
  /\ hashed = digest pwd_context salt (whole_chars 72 password).
Proof.
  intros salt p h. unfold get_password_hash, well_formed.
  destruct (encode p) as [bytes|] eqn:H; [|discriminate].
  cbv zeta. rewrite (decode_firstn_encode p 72 bytes H). unfold hash.
  destruct (has_nul (whole_chars 72 p)); [discriminate|].
  intros [= <-]. repeat split. discriminate.
Qed.

Lemma get_password_hash_well_formed : forall salt password,
  well_formed password ->
  get_password_hash pwd_context salt password
  = Return (digest pwd_context salt (whole_chars 72 password)).
Proof.
  intros salt p [Henc Hnul]. unfold get_password_hash.
  destruct (encode p) as [bytes|] eqn:E; [|now destruct Henc].
  cbv zeta. rewrite (decode_firstn_encode p 72 bytes E). unfold hash.
  now rewrite Hnul.
Qed.


Lemma whole_chars_fits : forall password,
  encode password <> None -> fits (whole_chars 72 password).
Proof.
  intros p H. destruct (encode p) as [bytes|] eqn:E; [|now destruct H].
  exact (encode_whole_chars p 72 bytes E).
Qed.

(** Only the first 72 bytes of the encoding reach the hash function. *)
Lemma verify_password_first_72 : forall p q hashed_password,
  option_map (firstn 72) (encode p) = option_map (firstn 72) (encode q) ->
  verify_password pwd_context p hashed_password
  = verify_password pwd_context q hashed_password.
Proof.
  intros p q h H. unfold verify_password.
  destruct (encode p) as [bytes|], (encode q) as [bytes'|];
    cbn [option_map] in H; try discriminate; trivial.
  assert (H' : firstn 72 bytes = firstn 72 bytes') by congruence.
  cbv zeta. now rewrite H'.
Qed.

Lemma login_found : forall request now db user,
  first (filter (by_email (LoginRequest.email request)) (users db))
  = Some user ->
  login pwd_context request now db
  = (ok <- verify_password pwd_context (LoginRequest.password request)
             (User.hashed_password user) ;;
     if negb ok
     then Raise (HTTPException 400 "Invalid credentials")
     else Return (mkAuthResponse (create_access_token (User.email user) now)
                    "bearer" user)).
Proof.
  intros request now db user H. unfold login.
  change (fun u => String.eqb (User.email u) (LoginRequest.email request))
    with (by_email (LoginRequest.email request)).
  now rewrite H.
Qed.

(** What a successful sign-up leaves in the table. *)
Lemma signup_registers : forall strptime form resume salt now db db' response,
  signup pwd_context strptime form resume salt now db
  = (db', Return response) ->
  first (filter (by_email (UserCreate.email form)) (users db'))
  = Some (user response)
  /\ get_password_hash pwd_context salt (UserCreate.password form)
     = Return (User.hashed_password (user response)).
Proof.
  intros strptime form resume salt now db db' response. unfold signup.
  change (fun u => String.eqb (User.email u) (UserCreate.email form))
    with (by_email (UserCreate.email form)).
  destruct (first (filter _ (users db))) eqn:Hnone; [discriminate|].
  destruct (get_password_hash _ _ _) as [hashed|]; [|discriminate].
  destruct (parse_date _ _); [|discriminate].
  destruct (parse_date _ _); [|discriminate].
  intros [= <- <-]. cbn [users user User.hashed_password]. split; trivial.
  rewrite filter_app. revert Hnone.
  destruct (filter _ (users db)); [intros _|discriminate].
  cbn [List.app filter]. unfold by_email at 1. cbn [User.email].
  now rewrite String.eqb_refl.
Qed.

Variable strptime : string -> option date.

Lemma signup_users : forall form resume salt now db,
  exists extra,
    users (fst (signup pwd_context strptime form resume salt now db))
    = (users db ++ extra)%list.
Proof.
  intros form resume salt now db. unfold signup.
  destruct (first _); [exists []; cbn [fst]; now rewrite app_nil_r|].
  destruct (get_password_hash _ _ _);
    [|exists []; cbn [fst]; now rewrite app_nil_r].
  destruct (parse_date _ _); [|exists []; cbn [fst]; now rewrite app_nil_r].
  destruct (parse_date _ _); [|exists []; cbn [fst]; now rewrite app_nil_r].
  cbn [fst users]. eauto.
Qed.

Lemma create_application_users : forall application current_user now db,
  users (fst (create_application application current_user now db)) = users db.
Proof.
  intros application u now db. unfold create_application.
  destruct (negb _); [reflexivity|].
  destruct (first _); [reflexivity|].
  destruct (first _); reflexivity.
Qed.

Lemma first_filter_app : forall (A : Type) (p : A -> bool) (l extra : list A) x,
  first (filter p l) = Some x -> first (filter p (l ++ extra)) = Some x.
Proof.
  intros A p l extra x. rewrite filter_app.
  destruct (filter p l); [discriminate | trivial].
Qed.

(** A user found by email is still the one found after any request. *)
Lemma serve_keeps_user : forall request now db email user,
  first (filter (by_email email) (users db)) = Some user ->
  first (filter (by_email email)
           (users (serve pwd_context strptime request now db)))
  = Some user.
Proof.
  intros [form resume salt|request|title location category|credentials|job
         |application credentials|credentials] now db email user H;
    cbn [serve]; trivial.
  - destruct (signup_users form resume salt now db) as [extra ->].
    now apply first_filter_app.
  - destruct (get_jobs_frame title location category now db) as (-> & _).
    exact H.
  - destruct (get_current_user _ _ _); trivial.
    now rewrite create_application_users.
Qed.

Lemma runs_keeps_user : forall db db' email user,
  runs pwd_context strptime db db' ->
  first (filter (by_email email) (users db)) = Some user ->
  first (filter (by_email email) (users db')) = Some user.
Proof.
  intros db db' email user Hruns H.
  induction Hruns as [|db' request now _ IH]; [exact H|].
  now apply serve_keeps_user.
Qed.

End Credentials.

(** C5 as stated fails: a user registered with 71 letters followed by a
    two-byte character logs in with the 71 letters alone, although the first
    72 bytes of the two passwords differ. *)
Lemma first_72_bytes_counterexample :
  let request := LoginRequest.mk "eve@example.org" (repeat 97 71) in
  login clear_context request 50 long_db
  = Return (mkAuthResponse (create_access_token "eve@example.org" 50)
              "bearer" (hd double_major (users long_db)))
  /\ option_map (firstn 72) (Utf8.encode (repeat 97 71))
     <> option_map (firstn 72) (Utf8.encode long_password).
Proof.
  split.
  - vm_compute. reflexivity.
  - vm_compute. discriminate.
Qed.

(** The login of a user found by email, whose stored hash was made from
    the password [registered]. *)
Lemma login_iff_truncated :
  forall pwd_context request later db user salt registered,
    faithful pwd_context ->
    first (filter (by_email (LoginRequest.email request)) (users db))
    = Some user ->
    get_password_hash pwd_context salt registered
    = Return (User.hashed_password user) ->
    Utf8.encode (LoginRequest.password request) <> None ->
    ((exists response, login pwd_context request later db = Return response)
     <-> Utf8.whole_chars 72 (LoginRequest.password request)
         = Utf8.whole_chars 72 registered)
    /\ (forall other,
        LoginRequest.email other = LoginRequest.email request ->
        option_map (firstn 72) (Utf8.encode (LoginRequest.password other))
        = option_map (firstn 72) (Utf8.encode (LoginRequest.password request)) ->
        login pwd_context other later db = login pwd_context request later db).
Proof.
  intros ctx request later db user salt registered Hf Hfound Hreg Henc.
  apply get_password_hash_truncates in Hreg as [[Hregenc Hregnul] Hhash].
  pose proof (whole_chars_fits _ Henc) as Fq.
  pose proof (whole_chars_fits _ Hregenc) as Fp.
  split.
  - destruct (Utf8.encode (LoginRequest.password request)) as [bytes|] eqn:E;
      [|now destruct Henc].
    rewrite (login_found ctx request later db user Hfound).
    rewrite (verify_password_truncates ctx _ _ bytes E). unfold verify.
    destruct (has_nul (Utf8.whole_chars 72 (LoginRequest.password request)))
      eqn:Hnul; cbn [bind].
    { split; [intros [r Hr]; discriminate|].
      intros Heq. rewrite Heq in Hnul. congruence. }
    rewrite Hhash. specialize (Hf salt _ _ Fp Fq Hregnul Hnul).
    destruct (check ctx _ _); cbn [negb].
    + split; [intros _; now apply Hf | intros _; now eexists].
    + split; [intros [r Hr]; discriminate|].
      intros Heq. apply Hf in Heq. discriminate.
  - intros other Hemail Hbytes.
    rewrite (login_found ctx request later db user Hfound).
    rewrite (login_found ctx other later db user)
      by (now rewrite Hemail).
    now rewrite (verify_password_first_72 ctx _ _ _ Hbytes).
Qed.

(** C5, amended.  Take a hashing that is ideal on the passwords bcrypt
    accepts (at most 72 bytes, no NUL), a successful registration, and any
    state the server is in after it.  A login with the registered email and
    a password that encodes to UTF-8
    succeeds if and only if the password and the registered one have the
    same longest prefix of whole characters fitting in 72 UTF-8 bytes (the
    first 72 bytes, less a character cut by the limit); and a password with
    the same first 72 bytes gives the same outcome. *)
Theorem login_truncated_password :
  forall pwd_context strptime form resume salt now db registered_db response
         later_db request later,
    faithful pwd_context ->
    signup pwd_context strptime form resume salt now db
    = (registered_db, Return response) ->
    runs pwd_context strptime registered_db later_db ->
    LoginRequest.email request = UserCreate.email form ->
    Utf8.encode (LoginRequest.password request) <> None ->
    ((exists granted,
         login pwd_context request later later_db = Return granted)
     <-> Utf8.whole_chars 72 (LoginRequest.password request)
         = Utf8.whole_chars 72 (UserCreate.password form))
    /\ (forall other,
        LoginRequest.email other = LoginRequest.email request ->
        option_map (firstn 72) (Utf8.encode (LoginRequest.password other))
        = option_map (firstn 72) (Utf8.encode (LoginRequest.password request)) ->
        login pwd_context other later later_db
        = login pwd_context request later later_db).
Proof.
  intros ctx strptime form resume salt now db db1 response db2 request later
    Hf Hsignup Hruns Hemail Henc.
  destruct (signup_registers ctx strptime form resume salt now db db1 response
              Hsignup) as [Hfound Hhash].
  apply (login_iff_truncated ctx request later db2 (user response) salt
           (UserCreate.password form)); trivial.
  rewrite Hemail.
  exact (runs_keeps_user ctx strptime db1 db2 _ _ Hruns Hfound).
Qed.

Lemma login_truncated_password_witness :
  ((exists granted, login clear_context ada_login 50 busy_db = Return granted)
   <-> Utf8.whole_chars 72 (LoginRequest.password ada_login)
       = Utf8.whole_chars 72 (UserCreate.password ada_form))
  /\ (forall other,
      LoginRequest.email other = LoginRequest.email ada_login ->
      option_map (firstn 72) (Utf8.encode (LoginRequest.password other))
      = option_map (firstn 72) (Utf8.encode (LoginRequest.password ada_login)) ->
      login clear_context other 50 busy_db
      = login clear_context ada_login 50 busy_db).
Proof.
  apply (login_truncated_password clear_context no_dates ada_form false 0 20
           listed_db signed_up_db
           (mkAuthResponse (create_access_token "ada@example.org" 20)
              "bearer" ada_user)
           busy_db ada_login 50).
  - exact clear_context_faithful.
  - reflexivity.
  - unfold busy_db. apply runs_serve. apply runs_none.
  - reflexivity.
  - discriminate.
Defined.

(** C6 as stated fails: a token issued 0.9 s after second 1000 carries
    the expiry 2800 s, and is refused at 2800 s sharp, 1799.1 s after it
    was issued. *)
Lemma token_lifetime_counterexample :
  let issued := 1000900000 in
  let now := 2800000000 in
  issued <= now < issued + 30 * 60 * 1000000
  /\ exp (create_access_token "ada@example.org" issued) = 2800
  /\ get_current_user_email (create_access_token "ada@example.org" issued) now
     = Raise (HTTPException 401 "Token has expired").
Proof.
  cbv zeta. split; [lia|]. split; reflexivity.
Qed.

(** C6, amended.  A token issued for a subject at instant [issued] gives
    the subject back at every instant before [expiry issued], which is 30
    minutes after the second of [issued] began, and from [expiry issued] on
    validation fails with 401 "Token has expired", which is neither of the
    two failures for an invalid token.  The expiry is later than [issued] by
    more than 29 minutes 59 seconds and at most 30 minutes: the token is
    valid from [issued] to 29 minutes 59 seconds later, expired from 30
    minutes later on, and its time is 30 minutes sharp when it was issued
    on a whole second. *)
Theorem token_lifetime : forall subject issued now,
  let token := create_access_token subject issued in
  (now < expiry issued -> get_current_user_email token now = Return subject)
  /\ (expiry issued <= now ->
      get_current_user_email token now
      = Raise (HTTPException 401 "Token has expired")
      /\ HTTPException 401 "Token has expired"
         <> HTTPException 401 "Could not validate credentials"
      /\ HTTPException 401 "Token has expired"
         <> HTTPException 401 "Invalid authentication credentials")
  /\ issued + minutes 30 - 1000000 < expiry issued <= issued + minutes 30
  /\ (issued <= now <= issued + minutes 30 - 1000000 ->
      get_current_user_email token now = Return subject)
  /\ (issued + minutes 30 <= now ->
      get_current_user_email token now
      = Raise (HTTPException 401 "Token has expired"))
  /\ (issued mod 1000000 = 0 -> expiry issued = issued + minutes 30).
Proof.
  intros subject issued now token.
  assert (Hexp : exp token * 1000000 = expiry issued).
  { unfold token, create_access_token, expiry, minutes,
      ACCESS_TOKEN_EXPIRE_MINUTES. cbn [exp]. f_equal.
    replace (issued + 30 * 60 * 1000000) with (issued + 1800 * 1000000)
      by lia.
    apply Z.div_add. lia. }
  assert (Hbounds : issued + minutes 30 - 1000000 < expiry issued
                    <= issued + minutes 30).
  { unfold expiry, minutes. Z.to_euclidean_division_equations. lia. }
  assert (Hvalid : now < expiry issued ->
                   get_current_user_email token now = Return subject).
  { intros H. unfold get_current_user_email. rewrite Hexp.
    destruct (Z.leb_spec (expiry issued) now); [lia | reflexivity]. }
  assert (Hexpired : expiry issued <= now ->
                     get_current_user_email token now
                     = Raise (HTTPException 401 "Token has expired")).
  { intros H. unfold get_current_user_email. rewrite Hexp.
    destruct (Z.leb_spec (expiry issued) now); [reflexivity | lia]. }
  split; [exact Hvalid|]. split.
  { intros H. split; [now apply Hexpired|]. split; discriminate. }
  split; [exact Hbounds|]. split; [intros H; apply Hvalid; lia|].
  split; [intros H; apply Hexpired; lia|].
  intros H. unfold expiry, minutes. Z.to_euclidean_division_equations. lia.
Qed.

Lemma token_lifetime_witness :
  get_current_user_email (create_access_token "ada@example.org" 1000900000)
    2799999999
  = Return "ada@example.org"
  /\ get_current_user_email (create_access_token "ada@example.org" 1000900000)
       2800000000
     = Raise (HTTPException 401 "Token has expired")
  /\ get_current_user_email (create_access_token "ada@example.org" 1000900000)
       2799900000
     = Return "ada@example.org"
  /\ get_current_user_email (create_access_token "ada@example.org" 1000900000)
       2800900000
     = Raise (HTTPException 401 "Token has expired")
  /\ expiry 1000000000 = 1000000000 + minutes 30.
Proof.
  split; [|split; [|split; [|split]]].
  - apply (proj1 (token_lifetime "ada@example.org" 1000900000 2799999999)).
    vm_compute. reflexivity.
  - apply (proj1 (proj2 (token_lifetime "ada@example.org" 1000900000
                           2800000000))).
    vm_compute. discriminate.
  - apply (proj1 (proj2 (proj2 (proj2
             (token_lifetime "ada@example.org" 1000900000 2799900000))))).
    vm_compute. split; discriminate.
  - apply (proj1 (proj2 (proj2 (proj2 (proj2
             (token_lifetime "ada@example.org" 1000900000 2800900000)))))).
    vm_compute. discriminate.
  - apply (proj2 (proj2 (proj2 (proj2 (proj2
             (token_lifetime "ada@example.org" 1000000000 0)))))).
    reflexivity.
Defined.




(** * Further properties of the endpoints *)

Section Keys.

Lemma next_id_fresh : forall (A : Type) (id : A -> Z) (rows : list A) x,
  In x rows -> id x < next_id id rows.
Proof.
  intros A id rows x. unfold next_id.
  induction rows as [|y rows IH]; intros Hin; [destruct Hin|].
  cbn [map fold_right]. destruct Hin as [->|Hin]; [lia|].
  specialize (IH Hin). lia.
Qed.

Lemma next_id_new : forall (A : Type) (id : A -> Z) (rows : list A),
  ~ In (next_id id rows) (map id rows).
Proof.
  intros A id rows Hin. apply in_map_iff in Hin as (x & Hx & Hin).
  pose proof (next_id_fresh A id rows x Hin). lia.
Qed.

Lemma NoDup_snoc : forall (A : Type) (l : list A) (x : A),
  NoDup l -> ~ In x l -> NoDup (l ++ [x]).
Proof.
  intros A l x Hl Hx. apply NoDup_app; trivial.
  - repeat constructor. intros [].
  - intros a Ha [<-|[]]. now apply Hx.
Qed.

Lemma existsb_false_not_in : forall (A B : Type) (key : A -> B)
    (test : A -> bool) (k : B) (l : list A),
  (forall x, key x = k -> test x = true) ->
  existsb test l = false -> ~ In k (map key l).
Proof.
  intros A B key test k l Htest He Hin.
  apply in_map_iff in Hin as (x & Hk & Hin).
  assert (existsb test l = true) as Ht
    by (apply existsb_exists; exists x; auto).
  congruence.
Qed.

End Keys.

Section Registration.

Variable pwd_context : CryptContext.
Variable strptime : string -> option date.

Lemma parse_date_ok : forall field,
  date_ok strptime field <-> exists d, parse_date strptime field = Return d.
Proof.
  intros field. unfold date_ok, parse_date.
  destruct (Text.provided field) as [s|].
  - destruct (strptime s) as [d|]; split.
    + intros _. now eexists.
    + discriminate.
    + intros H. now destruct H.
    + intros [d H]. discriminate.
  - split; [intros _; now eexists | trivial].
Qed.

(** What a sign-up returns, by the table it found. *)
Lemma signup_inv : forall form resume salt now db db' outcome,
  signup pwd_context strptime form resume salt now db = (db', outcome) ->
  match outcome with
  | Raise _ => db' = db
  | Return response =>
      existsb (by_email (UserCreate.email form)) (users db) = false
      /\ db' = mkDB (users db ++ [user response]) (jobs db) (applications db)
      /\ User.email (user response) = UserCreate.email form
      /\ User.id (user response) = next_id User.id (users db)
      /\ User.created_at (user response) = now
      /\ access_token response
         = create_access_token (UserCreate.email form) now
  end.
Proof.
  intros form resume salt now db db' outcome. unfold signup.
  change (fun u => String.eqb (User.email u) (UserCreate.email form))
    with (by_email (UserCreate.email form)).
  pose proof (first_filter _ (by_email (UserCreate.email form)) (users db))
    as F.
  destruct (first _); [now intros [= <- <-]|].
  destruct (get_password_hash _ _ _); [|now intros [= <- <-]].
  destruct (parse_date _ _); [|now intros [= <- <-]].
  destruct (parse_date _ _); [|now intros [= <- <-]].
  intros [= <- <-].
  cbn [user access_token User.email User.id User.created_at].
  repeat split; trivial.
Qed.

End Registration.

Section Tables.

Variable pwd_context : CryptContext.
Variable strptime : string -> option date.

Lemma add_job_nodup : forall now j db,
  NoDup (map Job.id (jobs db)) ->
  NoDup (map Job.id (jobs (fst (add_job now j db)))).
Proof.
  intros now j db H. cbn [add_job fst jobs]. rewrite map_app.
  apply NoDup_snoc; [exact H | apply next_id_new].
Qed.

Lemma add_all_jobs_nodup : forall now rows db,
  NoDup (map Job.id (jobs db)) ->
  NoDup (map Job.id (jobs (add_all_jobs now rows db))).
Proof.
  intros now rows; unfold add_all_jobs.
  induction rows as [|j rows IH]; intros db H; cbn [fold_left]; [exact H|].
  apply IH. now apply add_job_nodup.
Qed.


(** The users table after a request: as before, or with one row more, of
    a new email and the next id. *)
Lemma serve_users : forall request now db,
  users (serve pwd_context strptime request now db) = users db
  \/ exists u,
       users (serve pwd_context strptime request now db)
       = (users db ++ [u])%list
       /\ existsb (by_email (User.email u)) (users db) = false
       /\ User.id u = next_id User.id (users db).
Proof.
  intros [form resume salt|request|title location category|credentials|job
         |application credentials|credentials] now db; cbn [serve]; auto.
  - destruct (signup pwd_context strptime form resume salt now db)
      as [db' outcome] eqn:E.
    apply signup_inv in E. destruct outcome as [response|e].
    + destruct E as (Hnew & -> & Hemail & Hid & _). right.
      exists (user response). cbn [fst users]. rewrite Hemail. auto.
    + left. now rewrite E.
  - left. now destruct (get_jobs_frame title location category now db).
  - destruct (get_current_user _ _ _); auto.
    left. apply create_application_users.
Qed.

(** The jobs table after a request: rows are appended, with new ids. *)
Lemma serve_jobs : forall request now db,
  extends (jobs db) (jobs (serve pwd_context strptime request now db))
  /\ (NoDup (map Job.id (jobs db)) ->
      NoDup (map Job.id (jobs (serve pwd_context strptime request now db)))).
Proof.
  assert (same : forall db : DB, extends (jobs db) (jobs db))
    by (intros db; exists []; now rewrite app_nil_r).
  intros [form resume salt|request|title location category|credentials|job
         |application credentials|credentials] now db; cbn [serve]; auto.
  - destruct (signup_frame pwd_context strptime form resume salt now db)
      as [-> _]. auto.
  - split.
    + now destruct (get_jobs_frame title location category now db)
        as (_ & _ & H).
    + rewrite get_jobs_found. cbv zeta. destruct (is_empty _); cbn [fst];
        [apply add_all_jobs_nodup | trivial].
  - split; [exists [snd (add_job now job db)]; reflexivity|].
    apply add_job_nodup.
  - destruct (get_current_user _ _ _); auto.
    assert (E : jobs (fst (create_application application a now db))
                = jobs db).
    { unfold create_application. destruct (negb _); [reflexivity|].
      destruct (first _); [reflexivity|].
      destruct (first _); reflexivity. }
    rewrite E. auto.
Qed.

(** The applications table after a request: as before, or with one row
    more, of the next id, for a user of the table and a job of the catalog
    the user had not applied for. *)
Lemma serve_applications : forall request now db,
  applications (serve pwd_context strptime request now db) = applications db
  \/ exists a u,
       applications (serve pwd_context strptime request now db)
       = (applications db ++ [a])%list
       /\ JobApplication.id a = next_id JobApplication.id (applications db)
       /\ In u (users db) /\ JobApplication.user_id a = User.id u
       /\ resolves db (JobApplication.job_id a) = true
       /\ applied db (User.id u) (JobApplication.job_id a) = false
       /\ JobApplication.status a = "pending".
Proof.
  intros [form resume salt|request|title location category|credentials|job
         |application credentials|credentials] now db; cbn [serve]; auto.
  - left. now destruct (signup_frame pwd_context strptime form resume salt
                          now db).
  - left. now destruct (get_jobs_frame title location category now db)
      as (_ & H & _).
  - destruct (get_current_user credentials now db) as [u|e] eqn:G; auto.
    assert (Hu : In u (users db)).
    { unfold get_current_user in G.
      destruct (get_current_user_email _ _); [|discriminate]. cbn [bind] in G.
      match type of G with
      | context [first (filter ?p ?l)] => pose proof (first_filter _ p l) as F
      end.
      destruct (first _); [|discriminate]. injection G as ->. apply F. }
    destruct (int64 (ApplicationCreate.job_id application)) eqn:Hi.
    2:{ left. now rewrite create_application_overflow. }
    destruct (applied db (User.id u) (ApplicationCreate.job_id application))
      eqn:Ha.
    { left. now rewrite create_application_duplicate. }
    destruct (resolves db (ApplicationCreate.job_id application)) eqn:Hr.
    2:{ left. now rewrite create_application_missing. }
    destruct (create_application_fresh application u now db Hi Hr Ha)
      as (job & _ & _ & ->).
    right. cbv zeta. cbn [fst applications].
    eexists _, u. repeat split; trivial.
Qed.

End Tables.

Section Accounts.

Variable pwd_context : CryptContext.
Variable strptime : string -> option date.

Lemma signup_taken : forall form resume salt now db,
  existsb (by_email (UserCreate.email form)) (users db) = true ->
  signup pwd_context strptime form resume salt now db
  = (db, Raise (HTTPException 400 "Email already registered")).
Proof.
  intros form resume salt now db H. unfold signup.
  change (fun u => String.eqb (User.email u) (UserCreate.email form))
    with (by_email (UserCreate.email form)).
  pose proof (first_filter _ (by_email (UserCreate.email form)) (users db))
    as F.
  destruct (first _); [reflexivity | congruence].
Qed.

(** X1.  A sign-up with an email that a row of the users table has fails
    with 400 "Email already registered" and changes nothing, whatever the
    password and the dates of the form; and after a sign-up has succeeded,
    every later sign-up with its email fails so, in every state the server
    comes to. *)
Theorem signup_duplicate_email :
  (forall form resume salt now db,
      existsb (by_email (UserCreate.email form)) (users db) = true ->
      signup pwd_context strptime form resume salt now db
      = (db, Raise (HTTPException 400 "Email already registered")))
  /\ (forall form resume salt now db registered_db response later_db
             again resume' salt' now',
      signup pwd_context strptime form resume salt now db
      = (registered_db, Return response) ->
      runs pwd_context strptime registered_db later_db ->
      UserCreate.email again = UserCreate.email form ->
      signup pwd_context strptime again resume' salt' now' later_db
      = (later_db, Raise (HTTPException 400 "Email already registered"))).
Proof.
  split; [exact signup_taken|].
  intros form resume salt now db db1 response db2 again resume' salt' now'
    Hsignup Hruns Hemail.
  apply signup_taken. rewrite Hemail.
  destruct (signup_registers pwd_context strptime form resume salt now db db1
              response Hsignup) as [Hfound _].
  pose proof (runs_keeps_user pwd_context strptime db1 db2 _ _ Hruns Hfound)
    as Hlater.
  pose proof (first_filter _ (by_email (UserCreate.email form)) (users db2))
    as F.
  rewrite Hlater in F. apply F.
Qed.

(** X2.  A sign-up succeeds exactly when no row has the email, the password
    is well formed (it encodes to UTF-8, and what the 72-byte cut keeps of
    it holds no NUL), and each of the two date fields is absent, empty or
    parsed by [strptime]. *)
Theorem signup_succeeds_iff : forall form resume salt now db,
  (exists db' response,
      signup pwd_context strptime form resume salt now db
      = (db', Return response))
  <-> existsb (by_email (UserCreate.email form)) (users db) = false
      /\ well_formed (UserCreate.password form)
      /\ date_ok strptime (UserCreate.date_of_birth form)
      /\ date_ok strptime (UserCreate.graduation_date form).
Proof.
  intros form resume salt now db. rewrite !parse_date_ok. unfold signup.
  change (fun u => String.eqb (User.email u) (UserCreate.email form))
    with (by_email (UserCreate.email form)).
  pose proof (first_filter _ (by_email (UserCreate.email form)) (users db))
    as F.
  destruct (first _).
  { split; [intros (? & ? & [=]) | intros [H _]].
    destruct F as (_ & _ & F). congruence. }
  destruct (get_password_hash pwd_context salt (UserCreate.password form))
    as [hashed|e] eqn:G.
  2:{ split; [intros (? & ? & [=]) | intros (_ & Hw & _)].
      rewrite (get_password_hash_well_formed pwd_context salt _ Hw) in G.
      discriminate. }
  apply get_password_hash_truncates in G as [Hw _].
  destruct (parse_date strptime (UserCreate.date_of_birth form)).
  2:{ split; [intros (? & ? & [=]) | intros (_ & _ & [d H] & _)].
      discriminate. }
  destruct (parse_date strptime (UserCreate.graduation_date form)).
  2:{ split; [intros (? & ? & [=]) | intros (_ & _ & _ & [d H])].
      discriminate. }
  split; [intros _ | intros _; now eexists _, _].
  split; [exact F|]. split; [exact Hw|]. split; now eexists.
Qed.

(** X3.  A sign-up that raises leaves the database as it was.  One that
    succeeds appends one row to the users table and touches no other table;
    the row has the email of the form and an id no row had, and the token
    returned is the one issued for that email at the instant of the
    sign-up. *)
Theorem signup_effect : forall form resume salt now db,
  let after := signup pwd_context strptime form resume salt now db in
  match snd after with
  | Raise _ => fst after = db
  | Return response =>
      users (fst after) = (users db ++ [user response])%list
      /\ jobs (fst after) = jobs db
      /\ applications (fst after) = applications db
      /\ User.email (user response) = UserCreate.email form
      /\ ~ In (User.id (user response)) (map User.id (users db))
      /\ access_token response
         = create_access_token (UserCreate.email form) now
  end.
Proof.
  intros form resume salt now db after. unfold after.
  destruct (signup pwd_context strptime form resume salt now db)
    as [db' outcome] eqn:E.
  apply signup_inv in E. cbn [fst snd]. destruct outcome as [response|e];
    [|exact E].
  destruct E as (_ & -> & Hemail & Hid & _ & Htoken). cbn [users jobs applications].
  repeat split; trivial. rewrite Hid. apply next_id_new.
Qed.

Lemma serve_emails_unique : forall request now db,
  emails_unique db ->
  emails_unique (serve pwd_context strptime request now db).
Proof.
  intros request now db H. unfold emails_unique in *.
  destruct (serve_users pwd_context strptime request now db)
    as [->|(u & -> & Hnew & _)]; [exact H|].
  rewrite map_app. apply NoDup_snoc; [exact H|].
  apply (existsb_false_not_in _ _ User.email (by_email (User.email u)));
    [|exact Hnew].
  intros x Hx. unfold by_email. rewrite Hx. apply String.eqb_refl.
Qed.

Lemma serve_keys_unique : forall request now db,
  keys_unique db -> keys_unique (serve pwd_context strptime request now db).
Proof.
  intros request now db (Hu & Hj & Ha). split; [|split].
  - destruct (serve_users pwd_context strptime request now db)
      as [->|(u & -> & _ & Hid)]; [exact Hu|].
    rewrite map_app. apply NoDup_snoc; [exact Hu|].
    cbn [map]. rewrite Hid. apply next_id_new.
  - now apply serve_jobs.
  - destruct (serve_applications pwd_context strptime request now db)
      as [->|(a & u & -> & Hid & _)]; [exact Ha|].
    rewrite map_app. apply NoDup_snoc; [exact Ha|].
    cbn [map]. rewrite Hid. apply next_id_new.
Qed.

Lemma serve_users_resolve : forall request now db,
  users_resolve db ->
  users_resolve (serve pwd_context strptime request now db).
Proof.
  intros request now db H a Hin.
  assert (Hmore : forall id,
             existsb (fun u => User.id u =? id) (users db) = true ->
             existsb (fun u => User.id u =? id)
               (users (serve pwd_context strptime request now db)) = true).
  { intros id Hid.
    destruct (serve_users pwd_context strptime request now db)
      as [->|(u & -> & _)]; [exact Hid|].
    rewrite existsb_app, Hid. reflexivity. }
  apply Hmore.
  destruct (serve_applications pwd_context strptime request now db)
    as [E|(b & u & E & _ & Hu & Hid & _)]; rewrite E in Hin.
  - now apply H.
  - apply in_app_or in Hin as [Hin|[<-|[]]]; [now apply H|].
    apply existsb_exists. exists u. split; [exact Hu|].
    rewrite Hid. apply Z.eqb_refl.
Qed.

(** X4.  In every state the server reaches from the empty database, no two
    rows of the users table have the same email. *)
Theorem reachable_emails_unique : forall db,
  reachable pwd_context strptime db -> emails_unique db.
Proof.
  induction 1 as [|db request now _ IH]; [constructor|].
  now apply serve_emails_unique.
Qed.

(** X5.  In every state the server reaches from the empty database, the ids
    of each table are pairwise distinct: every insertion takes an id that no
    row of the table has. *)
Theorem reachable_keys_unique : forall db,
  reachable pwd_context strptime db -> keys_unique db.
Proof.
  induction 1 as [|db request now _ IH].
  - repeat split; constructor.
  - now apply serve_keys_unique.
Qed.

(** X6.  In every state the server reaches from the empty database, every
    application belongs to a row of the users table: applications are only
    created for the user a valid token resolves to, and users are never
    removed. *)
Theorem reachable_applications_have_users : forall db,
  reachable pwd_context strptime db -> users_resolve db.
Proof.
  induction 1 as [|db request now _ IH]; [intros a []|].
  now apply serve_users_resolve.
Qed.

(** X7.  Whatever requests are served, each table only grows at its end:
    no row is ever removed, changed or reordered. *)
Theorem tables_append_only : forall db db',
  runs pwd_context strptime db db' ->
  extends (users db) (users db')
  /\ extends (jobs db) (jobs db')
  /\ extends (applications db) (applications db').
Proof.
  assert (trans : forall (A : Type) (l m n : list A),
             extends l m -> extends m n -> extends l n).
  { intros A l m n [x ->] [y ->]. exists (x ++ y)%list.
    now rewrite app_assoc. }
  assert (same : forall (A : Type) (l : list A), extends l l)
    by (intros A l; exists []; now rewrite app_nil_r).
  induction 1 as [|db' request now _ (Hu & Hj & Ha)]; [repeat split; apply same|].
  split; [|split].
  - apply (trans _ _ _ _ Hu).
    destruct (serve_users pwd_context strptime request now db')
      as [->|(u & -> & _)]; [apply same | now exists [u]].
  - apply (trans _ _ _ _ Hj). apply serve_jobs.
  - apply (trans _ _ _ _ Ha).
    destruct (serve_applications pwd_context strptime request now db')
      as [->|(a & u & -> & _)]; [apply same | now exists [a]].
Qed.

End Accounts.

Lemma busy_db_runs : runs clear_context no_dates listed_db busy_db.
Proof.
  unfold busy_db. apply runs_serve.
  change signed_up_db
    with (serve clear_context no_dates (Signup ada_form false 0) 20 listed_db).
  apply runs_serve. apply runs_none.
Qed.

Lemma signup_duplicate_email_witness :
  signup clear_context no_dates ada_form true 7 99 signed_up_db
  = (signed_up_db, Raise (HTTPException 400 "Email already registered"))
  /\ signup clear_context no_dates ada_form false 1 40 busy_db
     = (busy_db, Raise (HTTPException 400 "Email already registered")).
Proof.
  split.
  - apply (proj1 (signup_duplicate_email clear_context no_dates)).
    vm_compute. reflexivity.
  - apply (proj2 (signup_duplicate_email clear_context no_dates)
             ada_form false 0 20 listed_db signed_up_db ada_response busy_db
             ada_form false 1 40).
    + reflexivity.
    + unfold busy_db. apply runs_serve. apply runs_none.
    + reflexivity.
Defined.

Lemma reachable_emails_unique_witness : emails_unique busy_db.
Proof.
  apply (reachable_emails_unique clear_context no_dates busy_db).
  exact busy_db_reachable.
Defined.

Lemma reachable_keys_unique_witness : keys_unique busy_db.
Proof.
  apply (reachable_keys_unique clear_context no_dates busy_db).
  exact busy_db_reachable.
Defined.

Lemma reachable_applications_have_users_witness : users_resolve busy_db.
Proof.
  apply (reachable_applications_have_users clear_context no_dates busy_db).
  exact busy_db_reachable.
Defined.

Lemma tables_append_only_witness :
  extends (users listed_db) (users busy_db)
  /\ extends (jobs listed_db) (jobs busy_db)
  /\ extends (applications listed_db) (applications busy_db).
Proof.
  apply (tables_append_only clear_context no_dates listed_db busy_db).
  exact busy_db_runs.
Defined.

Section Sessions.
Import Utf8 Utf8Facts.

Variable pwd_context : CryptContext.
Variable strptime : string -> option date.

(** What a successful login returns. *)
Lemma login_inv : forall request now db response,
  login pwd_context request now db = Return response ->
  first (filter (by_email (LoginRequest.email request)) (users db))
  = Some (user response)
  /\ User.email (user response) = LoginRequest.email request
  /\ response
     = mkAuthResponse
         (create_access_token (LoginRequest.email request) now) "bearer"
         (user response)
  /\ verify_password pwd_context (LoginRequest.password request)
       (User.hashed_password (user response)) = Return true.
Proof.
  intros request now db response. unfold login.
  change (fun u => String.eqb (User.email u) (LoginRequest.email request))
    with (by_email (LoginRequest.email request)).
  pose proof (first_filter _ (by_email (LoginRequest.email request))
                (users db)) as F.
  destruct (first _) as [u|]; [|discriminate].
  destruct F as (_ & Hu & _). apply String.eqb_eq in Hu.
  destruct (verify_password _ _ _) as [[|]|e] eqn:V; cbn [bind negb];
    try discriminate.
  intros H. apply (f_equal (fun r => match r with
                                     | Return x => x
                                     | Raise _ => response
                                     end)) in H.
  subst response. cbn [user]. rewrite Hu. repeat split. exact V.
Qed.

Lemma token_expiry : forall email issued,
  exp (create_access_token email issued) * 1000000 = expiry issued.
Proof.
  intros email issued.
  unfold create_access_token, expiry, minutes, ACCESS_TOKEN_EXPIRE_MINUTES.
  cbn [exp]. f_equal.
  replace (issued + 30 * 60 * 1000000) with (issued + 1800 * 1000000) by lia.
  apply Z.div_add. lia.
Qed.

Lemma token_opens : forall email issued t db u,
  t < expiry issued ->
  first (filter (by_email email) (users db)) = Some u ->
  get_current_user (create_access_token email issued) t db = Return u.
Proof.
  intros email issued t db u Ht Hu.
  unfold get_current_user, get_current_user_email.
  rewrite token_expiry.
  destruct (Z.leb_spec (expiry issued) t); [lia|]. cbn [bind].
  change (sub (create_access_token email issued)) with email.
  change (fun u0 => String.eqb (User.email u0) email) with (by_email email).
  now rewrite Hu.
Qed.

(** X8.  The token a sign-up or a login returns authenticates as the very
    user row of the response, in every state the server comes to
    afterwards, at every instant before its expiry, which comes more than
    1799 and at most 1800 seconds after the token was issued. *)
Theorem issued_token_authenticates :
  (forall form resume salt now db registered_db response later_db t,
      signup pwd_context strptime form resume salt now db
      = (registered_db, Return response) ->
      runs pwd_context strptime registered_db later_db ->
      t < expiry now ->
      get_current_user (access_token response) t later_db
      = Return (user response))
  /\ (forall request now db response later_db t,
      login pwd_context request now db = Return response ->
      runs pwd_context strptime db later_db ->
      t < expiry now ->
      get_current_user (access_token response) t later_db
      = Return (user response))
  /\ (forall now,
      now + 1799 * 1000000 < expiry now <= now + 1800 * 1000000).
Proof.
  split; [|split].
  - intros form resume salt now db db1 response db2 t Hsignup Hruns Ht.
    destruct (signup_registers pwd_context strptime form resume salt now db
                db1 response Hsignup) as [Hfound _].
    apply signup_inv in Hsignup as (_ & _ & _ & _ & _ & ->).
    apply token_opens; [exact Ht|].
    exact (runs_keeps_user pwd_context strptime db1 db2 _ _ Hruns Hfound).
  - intros request now db response db2 t Hlogin Hruns Ht.
    apply login_inv in Hlogin as (Hfound & _ & -> & _).
    cbn [access_token user]. apply token_opens; [exact Ht|].
    exact (runs_keeps_user pwd_context strptime db db2 _ _ Hruns Hfound).
  - intros now. unfold expiry. Z.to_euclidean_division_equations. lia.
Qed.

(** X9.  Authentication checks the expiry before it looks the user up: a
    token whose expiry second has come fails with 401 "Token has expired"
    whatever the users table holds; a token still valid whose subject is no
    user's email fails with 404 "User not found"; and a user it resolves to
    is a row of the table with the subject as email. *)
Theorem get_current_user_outcomes : forall credentials now db,
  (exp credentials * 1000000 <= now ->
   get_current_user credentials now db
   = Raise (HTTPException 401 "Token has expired"))
  /\ (now < exp credentials * 1000000 ->
      existsb (by_email (sub credentials)) (users db) = false ->
      get_current_user credentials now db
      = Raise (HTTPException 404 "User not found"))
  /\ (forall u,
      get_current_user credentials now db = Return u ->
      now < exp credentials * 1000000
      /\ In u (users db) /\ User.email u = sub credentials).
Proof.
  intros credentials now db.
  unfold get_current_user, get_current_user_email.
  change (fun u => String.eqb (User.email u) (sub credentials))
    with (by_email (sub credentials)).
  pose proof (first_filter _ (by_email (sub credentials)) (users db)) as F.
  destruct (Z.leb_spec (exp credentials * 1000000) now) as [Hle|Hlt];
    cbn [bind].
  - split; [reflexivity|]. split; [lia | discriminate].
  - split; [lia|]. destruct (first _) as [v|].
    + destruct F as (Hin & Hv & He). split; [congruence|].
      intros u [= <-]. apply String.eqb_eq in Hv. auto.
    + split; [reflexivity | discriminate].
Qed.

(** X10.  A login succeeds only for a row of the users table with the email
    of the request, on a password with no NUL in what the 72-byte cut
    keeps, which the stored hash verifies; the response carries that row
    and a bearer token for the email whose expiry is the second 1800 after
    the second of the login. *)
Theorem login_success : forall request now db response,
  login pwd_context request now db = Return response ->
  In (user response) (users db)
  /\ User.email (user response) = LoginRequest.email request
  /\ access_token response
     = mkToken (LoginRequest.email request) (now / 1000000 + 1800)
  /\ token_type response = "bearer"
  /\ exists bytes,
       encode (LoginRequest.password request) = Some bytes
       /\ has_nul (decode_ignore (firstn 72 bytes)) = false
       /\ check pwd_context (decode_ignore (firstn 72 bytes))
            (User.hashed_password (user response)) = true.
Proof.
  intros request now db response H.
  apply login_inv in H as (Hfound & Hemail & Hresp & Hverify).
  pose proof (first_filter _ (by_email (LoginRequest.email request))
                (users db)) as F.
  rewrite Hfound in F. destruct F as (Hin & _).
  assert (Htoken : create_access_token (LoginRequest.email request) now
                   = mkToken (LoginRequest.email request)
                       (now / 1000000 + 1800)).
  { unfold create_access_token, minutes, ACCESS_TOKEN_EXPIRE_MINUTES. f_equal.
    replace (now + 30 * 60 * 1000000) with (now + 1800 * 1000000) by lia.
    apply Z.div_add. lia. }
  split; [exact Hin|]. split; [exact Hemail|].
  split; [rewrite Hresp; exact Htoken|]. split; [now rewrite Hresp|].
  unfold verify_password in Hverify.
  destruct (encode (LoginRequest.password request)) as [bytes|];
    [|discriminate].
  exists bytes. split; [reflexivity|]. cbv zeta in Hverify.
  unfold verify in Hverify.
  destruct (has_nul (decode_ignore (firstn 72 bytes))); [discriminate|].
  split; [reflexivity | congruence].
Qed.

(** X11.  A password that UTF-8 cannot encode (one holding a surrogate) is
    not answered with an HTTP error: the login of an existing user and the
    sign-up with a new email both raise [UnicodeEncodeError], and the
    sign-up leaves the database unchanged. *)
Theorem unencodable_password :
  (forall request now db u,
      first (filter (by_email (LoginRequest.email request)) (users db))
      = Some u ->
      encode (LoginRequest.password request) = None ->
      login pwd_context request now db = Raise UnicodeEncodeError)
  /\ (forall form resume salt now db,
      existsb (by_email (UserCreate.email form)) (users db) = false ->
      encode (UserCreate.password form) = None ->
      signup pwd_context strptime form resume salt now db
      = (db, Raise UnicodeEncodeError))
  /\ (forall s,
      encode s = None <->
      exists c, In c s
                /\ (c < 0 \/ 55296 <= c <= 57343 \/ 1114112 <= c)).
Proof.
  split; [|split].
  - intros request now db u Hu Henc.
    rewrite (login_found pwd_context request now db u Hu).
    unfold verify_password. now rewrite Henc.
  - intros form resume salt now db Hnew Henc. unfold signup.
    change (fun u => String.eqb (User.email u) (UserCreate.email form))
      with (by_email (UserCreate.email form)).
    pose proof (first_filter _ (by_email (UserCreate.email form)) (users db))
      as F.
    destruct (first _); [destruct F as (_ & _ & F); congruence|].
    unfold get_password_hash. now rewrite Henc.
  - assert (char : forall c,
               encode_char c = None
               <-> (c < 0 \/ 55296 <= c <= 57343 \/ 1114112 <= c)).
    { intros c. unfold encode_char.
      destruct (Z.ltb_spec c 0); [split; [lia | reflexivity]|].
      destruct (Z.ltb_spec c 128);
        [split; [discriminate | intros Hbad; exfalso; lia]|].
      destruct (Z.ltb_spec c 2048);
        [split; [discriminate | intros Hbad; exfalso; lia]|].
      destruct (Z.ltb_spec c 65536).
      - destruct (Z.leb_spec 55296 c), (Z.leb_spec c 57343); cbn [andb];
          (split; [first [discriminate | lia]
                  | first [reflexivity | intros Hbad; exfalso; lia]]).
      - destruct (Z.ltb_spec c 1114112);
          [split; [discriminate | intros Hbad; exfalso; lia]
          | split; [lia | reflexivity]]. }
    induction s as [|c s IH]; cbn [encode].
    + split; [discriminate | intros (c & [] & _)].
    + destruct (encode_char c) as [b|] eqn:Ec.
      * destruct (encode s) as [bs|].
        -- split; [discriminate|]. intros (d & [<-|Hd] & Hbad).
           ++ apply char in Hbad. congruence.
           ++ assert (Some bs = None) by (apply IH; now exists d).
              discriminate.
        -- split; [intros _ | reflexivity].
           destruct (proj1 IH eq_refl) as (d & Hd & Hbad).
           exists d. split; [now right | exact Hbad].
      * split; [intros _ | reflexivity].
        exists c. split; [now left | now apply char].
Qed.

End Sessions.

Lemma issued_token_authenticates_witness :
  get_current_user (access_token ada_response) 1799999999 busy_db
  = Return (user ada_response)
  /\ get_current_user
       (access_token
          (mkAuthResponse (create_access_token "ada@example.org" 1900000)
             "bearer" ada_user))
       1800999999 busy_db
     = Return ada_user.
Proof.
  split.
  - apply (proj1 (issued_token_authenticates clear_context no_dates)
             ada_form false 0 20 listed_db signed_up_db ada_response busy_db
             1799999999).
    + reflexivity.
    + unfold busy_db. apply runs_serve. apply runs_none.
    + reflexivity.
  - apply (proj1 (proj2 (issued_token_authenticates clear_context no_dates))
             ada_login 1900000 signed_up_db
             (mkAuthResponse (create_access_token "ada@example.org" 1900000)
                "bearer" ada_user)
             busy_db 1800999999).
    + reflexivity.
    + unfold busy_db. apply runs_serve. apply runs_none.
    + reflexivity.
Defined.

Lemma get_current_user_outcomes_witness :
  get_current_user ada_token 2000000000 signed_up_db
  = Raise (HTTPException 401 "Token has expired")
  /\ get_current_user ada_token 1999999999 empty_db
     = Raise (HTTPException 404 "User not found")
  /\ (30 < exp ada_token * 1000000
      /\ In ada_user (users signed_up_db)
      /\ User.email ada_user = sub ada_token).
Proof.
  split; [|split].
  - apply (proj1 (get_current_user_outcomes ada_token 2000000000
                    signed_up_db)).
    vm_compute. discriminate.
  - apply (proj1 (proj2 (get_current_user_outcomes ada_token 1999999999
                           empty_db))); reflexivity.
  - apply (proj2 (proj2 (get_current_user_outcomes ada_token 30
                           signed_up_db))).
    reflexivity.
Defined.

Lemma login_success_witness :
  In ada_user (users signed_up_db)
  /\ User.email ada_user = "ada@example.org"
  /\ create_access_token "ada@example.org" 1900000
     = mkToken "ada@example.org" (1900000 / 1000000 + 1800).
Proof.
  destruct (login_success clear_context ada_login 1900000 signed_up_db
              (mkAuthResponse (create_access_token "ada@example.org" 1900000)
                 "bearer" ada_user) eq_refl)
    as (Hin & Hemail & Htoken & _).
  repeat split; assumption.
Defined.

Lemma unencodable_password_witness :
  login clear_context (LoginRequest.mk "ada@example.org" surrogate_password)
    50 signed_up_db
  = Raise UnicodeEncodeError
  /\ signup clear_context no_dates
       (UserCreate.mk "eve@example.org" surrogate_password "Eve" None "Paris"
          None "Nursing" "bike")
       false 0 20 empty_db
     = (empty_db, Raise UnicodeEncodeError).
Proof.
  split.
  - apply (proj1 (unencodable_password clear_context no_dates)
             (LoginRequest.mk "ada@example.org" surrogate_password) 50
             signed_up_db ada_user); reflexivity.
  - apply (proj1 (proj2 (unencodable_password clear_context no_dates)));
      reflexivity.
Defined.

Section Truncation.
Import Utf8 Utf8Facts.

Lemma whole_chars_all : forall s n bs,
  encode s = Some bs -> (List.length bs <= n)%nat -> whole_chars n s = s.
Proof.
  induction s as [|c s IH]; intros n bs H Hn; [reflexivity|].
  apply encode_cons in H as (b & bs' & Hc & Hs & ->).
  pose proof (encode_char_width c b Hc) as Hw.
  rewrite length_app in Hn. cbn [whole_chars].
  destruct (Nat.leb_spec (width c) n) as [Hle|Hlt]; [|lia].
  f_equal. apply (IH _ bs' Hs). lia.
Qed.

Lemma whole_chars_prefix : forall s n,
  exists rest, s = (whole_chars n s ++ rest)%list.
Proof.
  induction s as [|c s IH]; intros n; [now exists []|].
  cbn [whole_chars]. destruct (Nat.leb (width c) n).
  - destruct (IH (n - width c)%nat) as [rest Hrest].
    exists rest. cbn [List.app]. now rewrite <- Hrest.
  - now exists (c :: s).
Qed.

(** When the encoding is longer than [n] bytes, what is kept comes within
    three bytes of [n]: only a character cut by the limit is given up. *)
Lemma whole_chars_tight : forall s n bs,
  encode s = Some bs -> (n < List.length bs)%nat ->
  exists kept,
    encode (whole_chars n s) = Some kept
    /\ (n <= List.length kept + 3)%nat /\ (List.length kept <= n)%nat
    /\ kept = firstn (List.length kept) bs.
Proof.
  induction s as [|c s IH]; intros n bs H Hn.
  - injection H as <-. cbn in Hn. lia.
  - apply encode_cons in H as (b & bs' & Hc & Hs & ->).
    pose proof (encode_char_width c b Hc) as Hw.
    assert (Hw4 : (width c <= 4)%nat).
    { unfold width. destruct (c <? 128), (c <? 2048), (c <? 65536); lia. }
    rewrite length_app in Hn. cbn [whole_chars].
    destruct (Nat.leb_spec (width c) n) as [Hle|Hlt].
    + destruct (IH (n - width c)%nat bs' Hs) as (k & Hk & Hlo & Hhi & Hpre);
        [lia|].
      exists (b ++ k)%list. cbn [encode]. rewrite Hc, Hk.
      rewrite length_app. repeat split; try lia.
      rewrite firstn_app, firstn_all2 by lia.
      replace (List.length b + List.length k - List.length b)%nat
        with (List.length k) by lia.
      now rewrite <- Hpre.
    + exists []. repeat split; cbn; lia.
Qed.

Variable pwd_context : CryptContext.

(** X12.  A password whose UTF-8 encoding has at most 72 bytes reaches
    [pwd_context.hash] and [pwd_context.verify] unchanged, at registration
    and at verification; when it holds no NUL it is hashed and checked as it
    is. *)
Theorem short_password_untouched : forall salt password hashed,
  fits password ->
  get_password_hash pwd_context salt password
  = hash pwd_context salt password
  /\ verify_password pwd_context password hashed
     = verify pwd_context password hashed
  /\ (has_nul password = false ->
      get_password_hash pwd_context salt password
      = Return (digest pwd_context salt password)
      /\ verify_password pwd_context password hashed
         = Return (check pwd_context password hashed)).
Proof.
  intros salt p h (bytes & Henc & Hlen).
  unfold get_password_hash, verify_password. rewrite Henc. cbv zeta.
  rewrite (decode_firstn_encode p 72 bytes Henc).
  rewrite (whole_chars_all p 72 bytes Henc Hlen).
  split; [reflexivity|]. split; [reflexivity|].
  intros Hnul. unfold hash, verify. rewrite Hnul. split; reflexivity.
Qed.

(** X13.  What reaches [pwd_context.hash] of a password is a prefix of it,
    made of whole characters, whose encoding is a prefix of the password's
    encoding of at most 72 bytes, and of at least 69 bytes when the encoding
    of the password is longer than 72 bytes. *)
Theorem hashed_prefix : forall salt password bytes,
  encode password = Some bytes ->
  exists kept rest kept_bytes,
    password = (kept ++ rest)%list
    /\ get_password_hash pwd_context salt password
       = hash pwd_context salt kept
    /\ encode kept = Some kept_bytes
    /\ kept_bytes = firstn (List.length kept_bytes) bytes
    /\ (List.length kept_bytes <= 72)%nat
    /\ ((72 < List.length bytes)%nat -> (69 <= List.length kept_bytes)%nat).
Proof.
  intros salt p bytes Henc.
  destruct (whole_chars_prefix p 72) as [rest Hrest].
  assert (Hhash : get_password_hash pwd_context salt p
                  = hash pwd_context salt (whole_chars 72 p)).
  { unfold get_password_hash. rewrite Henc. cbv zeta.
    now rewrite (decode_firstn_encode p 72 bytes Henc). }
  destruct (Nat.le_gt_cases (List.length bytes) 72) as [Hle|Hgt].
  - exists p, [], bytes. rewrite Hhash, (whole_chars_all p 72 bytes Henc Hle).
    rewrite app_nil_r, firstn_all. repeat split; trivial. lia.
  - destruct (whole_chars_tight p 72 bytes Henc Hgt)
      as (kept & Hk & Hlo & Hhi & Hpre).
    exists (whole_chars 72 p), rest, kept. repeat split; trivial. lia.
Qed.

End Truncation.

Lemma short_password_untouched_witness :
  get_password_hash clear_context 0 [49; 50; 51]
  = Return (digest clear_context 0 [49; 50; 51])
  /\ verify_password clear_context [49; 50; 51] "x"
     = Return (check clear_context [49; 50; 51] "x").
Proof.
  refine (proj2 (proj2 (short_password_untouched clear_context 0
                          [49; 50; 51] "x" _)) _).
  - exists [49; 50; 51]. split; [reflexivity | cbn; lia].
  - reflexivity.
Defined.

Lemma hashed_prefix_witness :
  exists kept rest kept_bytes,
    long_password = (kept ++ rest)%list
    /\ get_password_hash clear_context 0 long_password
       = hash clear_context 0 kept
    /\ Utf8.encode kept = Some kept_bytes
    /\ kept_bytes = firstn (List.length kept_bytes) (repeat 97 71 ++ [195; 169])
    /\ (List.length kept_bytes <= 72)%nat
    /\ ((72 < List.length (repeat 97 71 ++ [195; 169])%list)%nat ->
        (69 <= List.length kept_bytes)%nat).
Proof.
  apply (hashed_prefix clear_context 0 long_password
           (repeat 97 71 ++ [195; 169])%list).
  reflexivity.
Defined.

Section Listing.

Lemma job_lookup : forall db job_id,
  match first (filter (fun j => Job.id j =? job_id) (jobs db)) with
  | Some job =>
      In job (jobs db) /\ Job.id job = job_id /\ resolves db job_id = true
  | None => resolves db job_id = false
  end.
Proof.
  intros db job_id. unfold resolves.
  pose proof (first_filter _ (fun j => Job.id j =? job_id) (jobs db)) as F.
  destruct (first _); [|exact F].
  destruct F as (Hin & Hid & He). apply Z.eqb_eq in Hid. auto.
Qed.

(** X14.  Every summary [get_applications] returns is the summary of an
    application of the current user, never of another user, joined to a job
    of the catalog that has the application's job id. *)
Theorem get_applications_own : forall current_user db s,
  In s (get_applications current_user db) ->
  exists app job,
    In app (applications db)
    /\ JobApplication.user_id app = User.id current_user
    /\ In job (jobs db)
    /\ Job.id job = JobApplication.job_id app
    /\ s = summary_of app job.
Proof.
  intros u db s Hs. unfold get_applications in Hs.
  apply in_flat_map in Hs as (app & Happ & Hs).
  apply filter_In in Happ as [Hin Hu]. apply Z.eqb_eq in Hu.
  pose proof (job_lookup db (JobApplication.job_id app)) as J.
  destruct (first _) as [job|]; [|destruct Hs].
  destruct J as (Hjob & Hid & _). destruct Hs as [<-|[]].
  now exists app, job.
Qed.

Lemma listing_ids : forall current_user db l,
  map summary_id
    (flat_map
       (fun app =>
          match first (filter (fun j => Job.id j =? JobApplication.job_id app)
                         (jobs db)) with
          | Some job =>
              [ mkApplicationSummary (JobApplication.id app) (Job.title job)
                  (Job.company job) (JobApplication.applied_at app)
                  (JobApplication.status app) ]
          | None => []
          end)
       (filter (fun a => JobApplication.user_id a =? User.id current_user) l))
  = map JobApplication.id (filter (listed db (User.id current_user)) l).
Proof.
  intros u db l. induction l as [|a l IH]; [reflexivity|].
  cbn [filter]. unfold listed at 1.
  destruct (JobApplication.user_id a =? User.id u); cbn [andb]; [|exact IH].
  cbn [flat_map]. rewrite map_app.
  pose proof (job_lookup db (JobApplication.job_id a)) as J.
  destruct (first _) as [job|].
  - destruct J as (_ & _ & ->). cbn [map List.app summary_id].
    f_equal. exact IH.
  - rewrite J. exact IH.
Qed.

End Listing.

Section ListingReachable.

Variable pwd_context : CryptContext.
Variable strptime : string -> option date.

(** X15.  The applications [get_applications] lists are, in table order,
    those of the current user whose job id resolves to a job of the catalog;
    an application whose job is missing is left out without an error.  In
    every state the server reaches from the empty database none is left
    out: the list has one summary per application of the user. *)
Theorem get_applications_ids :
  (forall current_user db,
      map summary_id (get_applications current_user db)
      = map JobApplication.id
          (filter (listed db (User.id current_user)) (applications db)))
  /\ (forall current_user db,
      reachable pwd_context strptime db ->
      map summary_id (get_applications current_user db)
      = map JobApplication.id
          (filter
             (fun a => JobApplication.user_id a =? User.id current_user)
             (applications db))).
Proof.
  split.
  - intros u db. apply listing_ids.
  - intros u db Hreach. unfold get_applications. rewrite listing_ids.
    f_equal. apply filter_ext_in. intros a Hin. unfold listed.
    destruct (reachable_consistent pwd_context strptime db Hreach)
      as [_ Hres].
    rewrite (Hres a Hin). apply andb_true_r.
Qed.

End ListingReachable.

(** X16.  After a submission that succeeds (for a job of the catalog,
    under an id SQLite binds, that the user has not applied for), the list
    of the user's applications is the list from before followed by the
    summary of the new application: its id, the title and company of the
    job, the instant of the submission and the status "pending". *)
Theorem applied_then_listed : forall application current_user now db,
  int64 (ApplicationCreate.job_id application) = true ->
  resolves db (ApplicationCreate.job_id application) = true ->
  applied db (User.id current_user) (ApplicationCreate.job_id application)
  = false ->
  exists job,
    In job (jobs db)
    /\ Job.id job = ApplicationCreate.job_id application
    /\ get_applications current_user
         (fst (create_application application current_user now db))
       = (get_applications current_user db
          ++ [ mkApplicationSummary
                 (next_id JobApplication.id (applications db))
                 (Job.title job) (Job.company job) now "pending" ])%list.
Proof.
  intros application u now db Hi Hr Ha.
  destruct (create_application_fresh application u now db Hi Hr Ha)
    as (job & Hin & Hid & E).
  pose proof (job_lookup db (ApplicationCreate.job_id application)) as J.
  destruct (first (filter (fun j => Job.id j =? ApplicationCreate.job_id
                                                  application) (jobs db)))
    as [found|] eqn:Efound; [|congruence].
  exists found. destruct J as (Hfin & Hfid & _).
  split; [exact Hfin|]. split; [exact Hfid|].
  rewrite E. cbv zeta. cbn [fst]. unfold get_applications.
  cbn [applications jobs]. rewrite filter_app, flat_map_app. f_equal.
  cbn [filter JobApplication.user_id]. rewrite Z.eqb_refl.
  cbn [flat_map JobApplication.job_id]. rewrite Efound. reflexivity.
Qed.

Lemma applied_then_listed_witness :
  exists job,
    In job (jobs three_postings)
    /\ Job.id job = 2
    /\ get_applications double_major
         (fst (create_application (ApplicationCreate.mk 2) double_major 10
                 three_postings))
       = (get_applications double_major three_postings
          ++ [ mkApplicationSummary
                 (next_id JobApplication.id (applications three_postings))
                 (Job.title job) (Job.company job) 10 "pending" ])%list.
Proof.
  apply (applied_then_listed (ApplicationCreate.mk 2) double_major 10
           three_postings); reflexivity.
Defined.

Lemma get_applications_own_witness :
  exists app job,
    In app (applications busy_db)
    /\ JobApplication.user_id app = User.id ada_user
    /\ In job (jobs busy_db)
    /\ Job.id job = JobApplication.job_id app
    /\ mkApplicationSummary 1 "Senior Python Developer" "CodeCraft Inc" 30
         "pending"
       = summary_of app job.
Proof.
  apply (get_applications_own ada_user busy_db). vm_compute. auto.
Defined.

Lemma get_applications_ids_witness :
  map summary_id (get_applications ada_user busy_db)
  = map JobApplication.id
      (filter (fun a => JobApplication.user_id a =? User.id ada_user)
         (applications busy_db)).
Proof.
  apply (proj2 (get_applications_ids clear_context no_dates) ada_user busy_db).
  exact busy_db_reachable.
Defined.

(** X17.  A submission has four outcomes.  It raises [OverflowError], for
    a job id SQLite does not bind; or 400 "Already applied", for a job id
    the user has an application for; or 404 "Job not found", for a job id
    neither applied for nor in the catalog; and in these three cases the
    database is unchanged.  Or it succeeds, and then the confirmation goes
    to the email of the current user and names the title and company of a
    job of the catalog with the requested id, and the application id
    returned is one no application had. *)
Theorem create_application_outcomes :
  forall application current_user now db,
    let after := create_application application current_user now db in
    let job_id := ApplicationCreate.job_id application in
    match snd after with
    | Raise e =>
        fst after = db
        /\ ((e = OverflowError /\ int64 job_id = false)
            \/ (e = HTTPException 400 "Already applied"
                /\ int64 job_id = true
                /\ applied db (User.id current_user) job_id = true)
            \/ (e = HTTPException 404 "Job not found"
                /\ int64 job_id = true
                /\ applied db (User.id current_user) job_id = false
                /\ resolves db job_id = false))
    | Return (response, confirmation) =>
        int64 job_id = true
        /\ applied db (User.id current_user) job_id = false
        /\ message response = "Application submitted successfully"
        /\ ~ In (application_id response)
               (map JobApplication.id (applications db))
        /\ to_email confirmation = User.email current_user
        /\ exists job,
             In job (jobs db)
             /\ Job.id job = job_id
             /\ conf_job_title confirmation = Job.title job
             /\ conf_company confirmation = Job.company job
    end.
Proof.
  intros application u now db after job_id. unfold after, job_id.
  destruct (int64 (ApplicationCreate.job_id application)) eqn:Hi.
  2:{ rewrite create_application_overflow by exact Hi. cbn [fst snd].
      split; [reflexivity|]. left. split; reflexivity. }
  destruct (applied db (User.id u) (ApplicationCreate.job_id application))
    eqn:Ha.
  { rewrite create_application_duplicate by assumption. cbn [fst snd].
    split; [reflexivity|]. right. left. repeat split. }
  destruct (resolves db (ApplicationCreate.job_id application)) eqn:Hr.
  2:{ rewrite create_application_missing by assumption. cbn [fst snd].
      split; [reflexivity|]. right. right. repeat split. }
  destruct (create_application_fresh application u now db Hi Hr Ha)
    as (job & Hin & Hid & ->).
  cbv zeta. cbn [snd message application_id to_email conf_job_title
                 conf_company JobApplication.id].
  split; [reflexivity|]. split; [reflexivity|].
  split; [reflexivity|]. split; [apply next_id_new|]. split; [reflexivity|].
  now exists job.
Qed.

Section Postings.

Lemma not_in_ids_unresolved : forall db job_id,
  ~ In job_id (map Job.id (jobs db)) -> resolves db job_id = false.
Proof.
  intros db job_id H. unfold resolves.
  destruct (existsb _ _) eqn:E; [|reflexivity].
  apply existsb_exists in E as (j & Hin & Hj). apply Z.eqb_eq in Hj.
  destruct H. rewrite <- Hj. now apply in_map.
Qed.

Lemma create_job_resolves : forall job now db,
  resolves (fst (create_job job now db)) (Job.id (snd (create_job job now db)))
  = true.
Proof.
  intros job now db. unfold resolves, create_job, add_job.
  cbn [fst snd jobs Job.id]. rewrite existsb_app. cbn [existsb Job.id].
  rewrite Z.eqb_refl. now rewrite orb_true_r.
Qed.

Lemma create_job_new_id : forall job now db,
  applications (fst (create_job job now db)) = applications db
  /\ ~ In (Job.id (snd (create_job job now db))) (map Job.id (jobs db)).
Proof.
  intros job now db. split; [reflexivity|].
  unfold create_job, add_job. cbn [snd Job.id]. apply next_id_new.
Qed.


Variable pwd_context : CryptContext.
Variable strptime : string -> option date.

(** X19.  In every state the server reaches from the empty database, a job
    just created, under an id SQLite binds, can be applied for by any user:
    the submission for its id succeeds. *)
Theorem created_job_accepts_applications :
  forall job now later current_user db,
    reachable pwd_context strptime db ->
    let after := create_job job now db in
    int64 (Job.id (snd after)) = true ->
    exists response,
      snd (create_application (ApplicationCreate.mk (Job.id (snd after)))
             current_user later (fst after))
      = Return response.
Proof.
  intros job now later u db Hreach after Hi.
  destruct (create_job_new_id job now db) as [Happs Hnew].
  pose proof (create_job_resolves job now db) as Hres.
  fold after in Happs, Hnew, Hres.
  assert (Ha : applied (fst after) (User.id u) (Job.id (snd after)) = false).
  { unfold applied. rewrite Happs.
    apply (reachable_unresolved_unapplied pwd_context strptime db _ _ Hreach).
    now apply not_in_ids_unresolved. }
  destruct (create_application_fresh
              (ApplicationCreate.mk (Job.id (snd after))) u later (fst after)
              Hi Hres Ha) as (found & _ & _ & E).
  rewrite E. cbv zeta. cbn [snd]. now eexists.
Qed.

End Postings.

Lemma created_job_accepts_applications_witness :
  exists response,
    snd (create_application
           (ApplicationCreate.mk (Job.id (snd (create_job baker 50 busy_db))))
           ada_user 60 (fst (create_job baker 50 busy_db)))
    = Return response.
Proof.
  apply (created_job_accepts_applications clear_context no_dates baker 50 60
           ada_user busy_db).
  - exact busy_db_reachable.
  - vm_compute. reflexivity.
Defined.

Section Listings.
Import Text TextFacts.



Lemma provided_lower : forall t,
  provided (Some (lower t)) = option_map lower (provided (Some t)).
Proof. intros [|c t]; reflexivity. Qed.

(** X21.  The search does not see the ASCII case of the title and location
    filters: lowercasing them gives the same listing and the same
    database. *)
Theorem get_jobs_ignores_case : forall title location category now db,
  get_jobs (Some (lower title)) (Some (lower location)) category now db
  = get_jobs (Some title) (Some location) category now db.
Proof.
  intros title location category now db. rewrite !get_jobs_found.
  assert (E : forall j,
             selected (Some (lower title)) (Some (lower location)) category j
             = selected (Some title) (Some location) category j).
  { intros j. unfold selected. rewrite !provided_lower.
    destruct (provided (Some title)), (provided (Some location));
      cbn [option_map]; now rewrite ?contains_lower. }
  now rewrite (filter_ext _ _ E).
Qed.

End Listings.

Section Recommendations.

Lemma firstn_incl : forall (A : Type) (n : nat) (l : list A) x,
  In x (firstn n l) -> In x l.
Proof.
  intros A n; induction n as [|n IH]; intros [|y l] x H; cbn in H;
    try contradiction.
  destruct H as [->|H]; [now left | right; now apply IH].
Qed.

(** X22.  A recommendation holds at most 20 jobs, all of them rows of the
    catalog, whatever [str.lower] makes of the field of study. *)
Theorem recommended_jobs_bounds : forall str_lower current_user db,
  (List.length (get_recommended_jobs str_lower current_user db) <= 20)%nat
  /\ forall j,
       In j (get_recommended_jobs str_lower current_user db) ->
       In j (jobs db).
Proof.
  intros str_lower u db. unfold get_recommended_jobs, limit.
  assert (H10 : (List.length (firstn 10 (jobs db)) <= 20)%nat).
  { pose proof (firstn_le_length 10 (jobs db)). lia. }
  destruct (is_empty (keywords_for _ _)).
  - split; [exact H10 | apply firstn_incl].
  - destruct (is_empty (firstn 20 _)).
    + split; [exact H10 | apply firstn_incl].
    + split; [apply firstn_le_length|].
      intros j Hj. apply firstn_incl in Hj. now apply filter_In in Hj.
Qed.

(** X23.  A user whose field of study is missing or empty is recommended
    the first 10 jobs of the catalog. *)
Theorem recommended_without_field : forall str_lower current_user db,
  User.graduation_institution current_user = None
  \/ User.graduation_institution current_user = Some "" ->
  get_recommended_jobs str_lower current_user db = firstn 10 (jobs db).
Proof.
  intros str_lower u db H. unfold get_recommended_jobs, user_major_of.
  destruct H as [-> | ->]; reflexivity.
Qed.

End Recommendations.

Lemma recommended_without_field_witness :
  get_recommended_jobs Text.lower
    (User.mk 4 "max@example.org" "" "Max" None "Bonn" None None "bus" None 0)
    three_postings
  = firstn 10 (jobs three_postings).
Proof.
  apply recommended_without_field. left. reflexivity.
Defined.

Lemma signup_succeeds_iff_witness :
  (exists db' response,
      signup clear_context one_date bob_form true 3 40 signed_up_db
      = (db', Return response))
  /\ (existsb (by_email "bob@example.org") (users signed_up_db) = false
      /\ well_formed (UserCreate.password bob_form)
      /\ date_ok one_date (UserCreate.date_of_birth bob_form)
      /\ date_ok one_date (UserCreate.graduation_date bob_form)).
Proof.
  assert (H : existsb (by_email (UserCreate.email bob_form))
                (users signed_up_db) = false
              /\ well_formed (UserCreate.password bob_form)
              /\ date_ok one_date (UserCreate.date_of_birth bob_form)
              /\ date_ok one_date (UserCreate.graduation_date bob_form)).
  { split; [vm_compute; reflexivity|].
    split; [split; [discriminate | reflexivity]|].
    split; [discriminate | exact I]. }
  split; [|exact H].
  exact (proj2 (signup_succeeds_iff clear_context one_date bob_form true 3 40
                  signed_up_db) H).
Defined.


Lemma recommended_jobs_bounds_witness :
  In (hd (snd (create_job baker 0 empty_db))
        (get_recommended_jobs Text.lower double_major three_postings))
    (jobs three_postings).
Proof.
  apply (proj2 (recommended_jobs_bounds Text.lower double_major
                  three_postings)).
  vm_compute. auto.
Defined.

Section Numbering.

Lemma max_from : forall l b,
  0 <= b -> fold_right Z.max b l = Z.max b (fold_right Z.max 0 l).
Proof.
  induction l as [|x l IH]; intros b Hb; cbn [fold_right]; [lia|].
  rewrite (IH b Hb). lia.
Qed.

Lemma max_seq : forall n,
  fold_right Z.max 0 (map Z.of_nat (seq 1 n)) = Z.of_nat n.
Proof.
  induction n as [|n IH]; [reflexivity|].
  rewrite seq_S, map_app, fold_right_app. cbn [map fold_right].
  rewrite max_from by lia. rewrite IH. lia.
Qed.

Lemma numbered_next : forall (A : Type) (id : A -> Z) (rows : list A),
  numbered id rows -> next_id id rows = Z.of_nat (List.length rows) + 1.
Proof.
  intros A id rows H. unfold next_id. rewrite H, max_seq. lia.
Qed.

Lemma numbered_snoc : forall (A : Type) (id : A -> Z) (rows : list A) x,
  numbered id rows -> id x = next_id id rows -> numbered id (rows ++ [x]).
Proof.
  intros A id rows x H Hx. unfold numbered.
  rewrite (numbered_next A id rows H) in Hx.
  rewrite map_app, length_app, H. cbn [map List.length].
  rewrite Nat.add_1_r, seq_S, map_app. cbn [map]. rewrite Hx.
  f_equal. f_equal. lia.
Qed.

Lemma add_all_jobs_numbered : forall now rows db,
  numbered Job.id (jobs db) ->
  numbered Job.id (jobs (add_all_jobs now rows db)).
Proof.
  intros now rows; unfold add_all_jobs.
  induction rows as [|j rows IH]; intros db H; cbn [fold_left]; [exact H|].
  apply IH. cbn [add_job fst jobs]. now apply numbered_snoc.
Qed.

Variable pwd_context : CryptContext.
Variable strptime : string -> option date.

Lemma serve_jobs_numbered : forall request now db,
  numbered Job.id (jobs db) ->
  numbered Job.id (jobs (serve pwd_context strptime request now db)).
Proof.
  intros [form resume salt|request|title location category|credentials|job
         |application credentials|credentials] now db H; cbn [serve];
    try exact H.
  - now destruct (signup_frame pwd_context strptime form resume salt now db)
      as [-> _].
  - rewrite get_jobs_found. cbv zeta. destruct (is_empty _); cbn [fst];
      [now apply add_all_jobs_numbered | exact H].
  - cbn [create_job add_job fst jobs]. now apply numbered_snoc.
  - destruct (get_current_user _ _ _) as [u|e]; [|exact H].
    unfold create_application. destruct (negb _); [exact H|].
    destruct (first _); [exact H|].
    destruct (first _); exact H.
Qed.

(** X24.  In every state the server reaches from the empty database, the
    ids of each table are 1, 2, 3, ... in the order of its rows: a row gets
    as id its position in its table. *)
Theorem reachable_numbered : forall db,
  reachable pwd_context strptime db ->
  numbered User.id (users db)
  /\ numbered Job.id (jobs db)
  /\ numbered JobApplication.id (applications db).
Proof.
  induction 1 as [|db request now _ (Hu & Hj & Ha)];
    [repeat split; reflexivity|].
  split; [|split].
  - destruct (serve_users pwd_context strptime request now db)
      as [->|(u & -> & _ & Hid)]; [exact Hu | now apply numbered_snoc].
  - now apply serve_jobs_numbered.
  - destruct (serve_applications pwd_context strptime request now db)
      as [->|(a & u & -> & Hid & _)]; [exact Ha | now apply numbered_snoc].
Qed.

(** X25.  In every state the server reaches from the empty database, every
    application has the status "pending": it is set at the submission and
    nothing changes it. *)
Theorem reachable_all_pending : forall db,
  reachable pwd_context strptime db -> all_pending db.
Proof.
  induction 1 as [|db request now _ IH]; [intros a []|].
  intros a Hin.
  destruct (serve_applications pwd_context strptime request now db)
    as [E|(b & u & E & _ & _ & _ & _ & _ & Hs)]; rewrite E in Hin.
  - now apply IH.
  - apply in_app_or in Hin as [Hin|[<-|[]]]; [now apply IH | exact Hs].
Qed.

(** X26.  In every state the server reaches from the empty database, every
    application refers to a job of the catalog: a submission is accepted
    only for a job id that resolves, and jobs are never removed. *)
Theorem reachable_applications_have_jobs : forall db,
  reachable pwd_context strptime db -> jobs_resolve db.
Proof.
  intros db H. exact (proj2 (reachable_consistent pwd_context strptime db H)).
Qed.

End Numbering.

Lemma reachable_numbered_witness :
  numbered User.id (users busy_db)
  /\ numbered Job.id (jobs busy_db)
  /\ numbered JobApplication.id (applications busy_db).
Proof.
  apply (reachable_numbered clear_context no_dates busy_db).
  exact busy_db_reachable.
Defined.

Lemma reachable_all_pending_witness : all_pending busy_db.
Proof.
  apply (reachable_all_pending clear_context no_dates busy_db).
  exact busy_db_reachable.
Defined.

Lemma reachable_applications_have_jobs_witness : jobs_resolve busy_db.
Proof.
  apply (reachable_applications_have_jobs clear_context no_dates busy_db).
  exact busy_db_reachable.
Defined.
